(** * audit_plans: checkbox audit of the planning documents

    A shallow embedding of [scripts/dev/audit_plans.py].  The script walks
    [docs/plans], reads every Markdown file except the READMEs, matches each
    line against one regular expression, counts the checkbox states and
    prints a short report per file.

    Python text is a sequence of Unicode code points, Python integers are
    unbounded, and the percentage is a binary64 float: they are modelled by
    [list N], [Z] and [spec_float] respectively. *)

From Stdlib Require Import String Ascii DecimalString.
From Stdlib Require DecimalPos DecimalZ.
From Stdlib Require Import List ZArith NArith Lia Bool.
From Stdlib Require Import Sorting.Sorted Permutation.
From Stdlib Require Import Floats.SpecFloat.
Import ListNotations.

Local Open Scope list_scope.
Local Open Scope N_scope.

(** ** Text *)

(** A character is a code point, a [str] is a Python [str]. *)
Definition char := N.
Definition str := list char.

(** The code points of an ASCII literal of the source. *)
Definition str_of (s : string) : str :=
  map N_of_ascii (list_ascii_of_string s).

Fixpoint str_eqb (a b : str) : bool :=
  match a, b with
  | [], [] => true
  | x :: a', y :: b' => (x =? y) && str_eqb a' b'
  | _, _ => false
  end.

(** [str.isspace] on one character, which is also what [\s] matches in a
    [str] pattern: the code points CPython lists in [_PyUnicode_IsWhitespace]. *)
Definition is_space (c : char) : bool :=
  ((0x09 <=? c) && (c <=? 0x0D)) || ((0x1C <=? c) && (c <=? 0x20))
  || (c =? 0x85) || (c =? 0xA0) || (c =? 0x1680)
  || ((0x2000 <=? c) && (c <=? 0x200A))
  || (c =? 0x2028) || (c =? 0x2029) || (c =? 0x202F) || (c =? 0x205F)
  || (c =? 0x3000).

(** Lower-casing.  Only the ASCII letters are mapped.  The program compares
    lowered text with the literals ["x"], ["~"] and ["readme.md"] only, and
    the two code points outside ASCII whose lower case contains an ASCII
    letter (U+0130 gives [i], U+212A gives [k]) cannot produce any of them,
    so every comparison of the program has the value it has in Python. *)
Definition lower_char (c : char) : char :=
  if (0x41 <=? c) && (c <=? 0x5A) then c + 0x20 else c.

Definition lower (s : str) : str := map lower_char s.

(** [str.strip()] with no argument removes [is_space] characters at both
    ends. *)
Fixpoint lstrip (s : str) : str :=
  match s with
  | c :: s' => if is_space c then lstrip s' else s
  | [] => []
  end.

Definition rstrip (s : str) : str := rev (lstrip (rev s)).

Definition strip (s : str) : str := rstrip (lstrip s).

(** Line boundaries of [str.splitlines]. *)
Definition LF : char := 0x0A.
Definition CR : char := 0x0D.

Definition is_linebreak (c : char) : bool :=
  ((0x0A <=? c) && (c <=? 0x0D)) || ((0x1C <=? c) && (c <=? 0x1E))
  || (c =? 0x85) || (c =? 0x2028) || (c =? 0x2029).

(** [splitlines_from cur s]: [cur] is the line being read, [s] what is left.
    A CR LF pair is one boundary, and a final boundary opens no empty line. *)
Fixpoint splitlines_from (cur : str) (s : str) : list str :=
  match s with
  | [] => match cur with [] => [] | _ => [cur] end
  | c :: s' =>
      if is_linebreak c then
        match s' with
        | d :: s'' =>
            if (c =? CR) && (d =? LF)
            then cur :: splitlines_from [] s''
            else cur :: splitlines_from [] s'
        | [] => [cur]
        end
      else splitlines_from (cur ++ [c]) s'
  end.

Definition splitlines (s : str) : list str := splitlines_from [] s.

(** [enumerate(xs, start)]. *)
Fixpoint enumerate {A : Type} (xs : list A) (start : Z) : list (Z * A) :=
  match xs with
  | [] => []
  | x :: xs' => (start, x) :: enumerate xs' (start + 1)%Z
  end.

(** ** The regular expression

    [re]'s matcher is a backtracking one.  Each construct of the pattern is
    a function of the input left and of a continuation for the rest of the
    pattern; a [None] from the continuation makes the construct try its next
    alternative. *)

Section Backtracking.
Context {R : Type}.

(** One character of a class. *)
Definition re_char (p : char -> bool) (s : str) (k : char -> str -> option R)
  : option R :=
  match s with
  | c :: s' => if p c then k c s' else None
  | [] => None
  end.

(** A greedy [*] over a class: the longest run first, then shorter ones.
    The continuation gets the run and the input after it. *)
Fixpoint re_star (p : char -> bool) (s : str) (k : str -> str -> option R)
  : option R :=
  match s with
  | c :: s' =>
      if p c then
        match re_star p s' (fun w => k (c :: w)) with
        | Some r => Some r
        | None => k [] s
        end
      else k [] s
  | [] => k [] s
  end.

(** [$] without MULTILINE: the end of the text, or just before a line feed
    that ends the text. *)
Definition re_eol (s : str) (r : option R) : option R :=
  match s with
  | [] => r
  | [c] => if c =? LF then r else None
  | _ => None
  end.

End Backtracking.

(** [[-*]] *)
Definition is_marker (c : char) : bool := (c =? 0x2D) || (c =? 0x2A).

(** [( |x|~)] under IGNORECASE: a literal matches a character whose lower
    case it is.  The three alternatives are one character each and differ,
    so the group is a character class. *)
Definition is_state (c : char) : bool :=
  (lower_char c =? 0x20) || (lower_char c =? 0x78) || (lower_char c =? 0x7E).

(** [.] without DOTALL *)
Definition is_dot (c : char) : bool := negb (c =? LF).

Definition LBRACKET : char := 0x5B.
Definition RBRACKET : char := 0x5D.

(** [pat.match(line)], the pattern being compiled with IGNORECASE.  One
    line of the definition per piece of the pattern, in order:
    [^\s*], [[-*]], [\s*], [\[], the group [( |x|~)], [\]], [\s*], the group
    around [.*], and [$].  The result is [None] when the line does not
    match, otherwise [group(1)] and [group(2)]. *)
Definition pat_match (line : str) : option (str * str) :=
  re_star is_space line (fun _ s1 =>
  re_char is_marker s1 (fun _ s2 =>
  re_star is_space s2 (fun _ s3 =>
  re_char (N.eqb LBRACKET) s3 (fun _ s4 =>
  re_char is_state s4 (fun g1 s5 =>
  re_char (N.eqb RBRACKET) s5 (fun _ s6 =>
  re_star is_space s6 (fun _ s7 =>
  re_star is_dot s7 (fun g2 s8 =>
  re_eol s8 (Some ([g1], g2)))))))))).

(** ** Counting *)

Local Open Scope Z_scope.

(** The four variables of the loop over the lines of one file. *)
Record report := mkReport {
  total : Z;
  done : Z;
  impl : Z;
  unchecked : list (Z * str)
}.

Definition empty_report : report := mkReport 0 0 0 [].

(** The body of [for i, line in enumerate(...)]. *)
Definition scan_line (r : report) (il : Z * str) : report :=
  let (i, line) := il in
  match pat_match line with
  | None => r
  | Some (g1, g2) =>
      let state := lower g1 in
      if str_eqb state (str_of "x") then
        mkReport (total r + 1) (done r + 1) (impl r) (unchecked r)
      else if str_eqb state (str_of "~") then
        mkReport (total r + 1) (done r) (impl r + 1) (unchecked r)
      else
        mkReport (total r + 1) (done r) (impl r)
                 (unchecked r ++ [(i, strip g2)])
  end.

Definition scan_lines (r : report) (ils : list (Z * str)) : report :=
  fold_left scan_line ils r.

(** The report of a file whose text is [text]. *)
Definition scan (text : str) : report :=
  scan_lines empty_report (enumerate (splitlines text) 1).

(** ** Printing *)

(** [str(n)] for an [int]. *)
Definition str_of_int (n : Z) : str :=
  str_of (NilZero.string_of_int (Z.to_int n)).

(** What the program can raise. *)
Inductive exn := ZeroDivisionError | OverflowError | ReadError.

Inductive result (A : Type) :=
| Ok (a : A)
| Raise (e : exn).
Arguments Ok {A} a.
Arguments Raise {A} e.

(** Python's [float] is binary64. *)
Definition prec : Z := 53.
Definition emax : Z := 1024.
Definition float := spec_float.

(** An [int] as an exact operand of a division: mantissa [n], exponent 0. *)
Definition int_operand (n : Z) : float :=
  match n with
  | Z0 => S754_zero false
  | Zpos p => S754_finite false p 0
  | Zneg p => S754_finite true p 0
  end.

(** [a / b] on two [int]s: the float nearest to the exact quotient, ties to
    even; [ZeroDivisionError] for a zero divisor, [OverflowError] when the
    quotient is beyond the floats. *)
Definition int_truediv (a b : Z) : result float :=
  if b =? 0 then Raise ZeroDivisionError
  else match SFdiv prec emax (int_operand a) (int_operand b) with
       | S754_infinity _ => Raise OverflowError
       | q => Ok q
       end.

(** The literal [100.0]. *)
Definition float_100 : float := binary_normalize prec emax 100 0 false.

(** [pct = (done / total) * 100.0] *)
Definition percent (done total : Z) : result float :=
  match int_truediv done total with
  | Ok q => Ok (SFmul prec emax q float_100)
  | Raise e => Raise e
  end.

(** The integer nearest to [m * 2^e], ties to even. *)
Definition nearest_even (m : positive) (e : Z) : Z :=
  match e with
  | Zneg k =>
      let d := 2 ^ Zpos k in
      let q := Zpos m / d in
      match 2 * (Zpos m mod d) ?= d with
      | Lt => q
      | Gt => q + 1
      | Eq => if Z.even q then q else q + 1
      end
  | _ => Zpos m * 2 ^ e
  end.

Definition sign_text (s : bool) : str := if s then str_of "-" else [].

(** The format [.0f]: the exact value of the float rounded to an integer,
    ties to even, in decimal. *)
Definition format_0f (x : float) : str :=
  match x with
  | S754_nan => str_of "nan"
  | S754_infinity s => sign_text s ++ str_of "inf"
  | S754_zero s => sign_text s ++ str_of "0"
  | S754_finite s m e => sign_text s ++ str_of_int (nearest_even m e)
  end.

(** The four f-strings; [path] is [p.as_posix()]. *)
Definition no_tasks_line (path : str) : str :=
  path ++ str_of " :: no task checkboxes".

Definition summary_line (path : str) (r : report) (pct : float) : str :=
  path ++ str_of " :: " ++ str_of_int (done r) ++ str_of "x + "
       ++ str_of_int (impl r) ++ str_of "~ / " ++ str_of_int (total r)
       ++ str_of " total = " ++ format_0f pct ++ str_of "% tested".

Definition preview_line (e : Z * str) : str :=
  let (ln, txt) := e in
  str_of "  [ ] " ++ str_of_int ln ++ str_of ": " ++ firstn 120 txt.

Definition overflow_line (n : Z) : str :=
  str_of "  ... " ++ str_of_int n ++ str_of " more unchecked".

(** What the loop body prints for one file once its lines are counted, one
    element per call of [print]. *)
Definition report_lines (path : str) (r : report) : result (list str) :=
  if total r =? 0 then Ok [no_tasks_line path]
  else
    match percent (done r) (total r) with
    | Raise e => Raise e
    | Ok pct =>
        Ok (summary_line path r pct
              :: map preview_line (firstn 5 (unchecked r))
              ++ (if Z.of_nat (length (unchecked r)) >? 5
                  then [overflow_line (Z.of_nat (length (unchecked r)) - 5)]
                  else []))
    end.

(** ** Files *)

#[local] Unset Elimination Schemes.

(** The part of the file system the program can see: regular files, each
    with what [read_text] returns for it in UTF-8 ([None] when the call
    raises), and directories.  Symbolic links and special files are left
    out. *)
Inductive node :=
| File (text : option str)
| Dir (entries : list (str * node)).
#[local] Set Elimination Schemes.

(** Induction on a tree, with the property at hand for every entry of a
    directory. *)
Fixpoint node_ind (P : node -> Prop)
  (HF : forall t, P (File t))
  (HD : forall es, Forall (fun e => P (snd e)) es -> P (Dir es))
  (n : node) : P n :=
  match n with
  | File t => HF t
  | Dir es =>
      HD es
        ((fix all (es : list (str * node)) : Forall (fun e => P (snd e)) es :=
            match es with
            | [] => Forall_nil _
            | (nm, x) :: es' =>
                Forall_cons (nm, x) (node_ind P HF HD x) (all es')
            end) es)
  end.

(** A path is the list of its components, the first one in the current
    directory. *)
Definition path := list str.

Fixpoint entry (name : str) (es : list (str * node)) : option node :=
  match es with
  | [] => None
  | (n, x) :: es' => if str_eqb n name then Some x else entry name es'
  end.

Fixpoint lookup (fs : node) (p : path) : option node :=
  match p with
  | [] => Some fs
  | c :: p' =>
      match fs with
      | Dir es =>
          match entry c es with
          | Some x => lookup x p'
          | None => None
          end
      | File _ => None
      end
  end.

Definition is_file (fs : node) (p : path) : bool :=
  match lookup fs p with
  | Some (File _) => true
  | _ => false
  end.

Definition read_text (fs : node) (p : path) : result str :=
  match lookup fs p with
  | Some (File (Some text)) => Ok text
  | _ => Raise ReadError
  end.

(** [p.name] *)
Definition name (p : path) : str := last p [].

Definition SLASH : char := 0x2F%N.

(** [p.as_posix()] *)
Fixpoint as_posix (p : path) : str :=
  match p with
  | [] => []
  | [c] => c
  | c :: p' => c ++ SLASH :: as_posix p'
  end.

Fixpoint ends_with (suffix s : str) : bool :=
  str_eqb s suffix
  || match s with
     | [] => false
     | _ :: s' => ends_with suffix s'
     end.

(** A name matches the glob [*.md] when it ends with [.md]. *)
Definition glob_md (name : str) : bool := ends_with (str_of ".md") name.

(** The entries below a directory, at any depth, that match [*.md];
    [here] is the path of the directory.  They come in the order of the
    directory listings. *)
Fixpoint walk (here : path) (n : node) : list path :=
  match n with
  | File _ => []
  | Dir es =>
      (fix entries (es : list (str * node)) : list path :=
         match es with
         | [] => []
         | (nm, x) :: es' =>
             (if glob_md nm then [here ++ [nm]] else [])
               ++ walk (here ++ [nm]) x ++ entries es'
         end) es
  end.

(** [root.rglob("*.md")]: nothing unless [root] is a directory. *)
Definition rglob_md (fs : node) (root : path) : list path :=
  match lookup fs root with
  | Some (Dir es) => walk root (Dir es)
  | _ => []
  end.

(** [a < b] on [str]: lexicographic on the code points. *)
Fixpoint str_ltb (a b : str) : bool :=
  match a, b with
  | _, [] => false
  | [], _ :: _ => true
  | x :: a', y :: b' => (x <? y)%N || ((x =? y)%N && str_ltb a' b')
  end.

(** [sorted(xs, key=key)] is the stable sort by [key]; a stable insertion
    sort returns the same list. *)
Section Sorted.
Context {A : Type} (key : A -> str).

Fixpoint insert_sorted (x : A) (l : list A) : list A :=
  match l with
  | [] => [x]
  | y :: l' =>
      if str_ltb (key y) (key x) then y :: insert_sorted x l' else x :: l
  end.

Fixpoint sorted (l : list A) : list A :=
  match l with
  | [] => []
  | x :: l' => insert_sorted x (sorted l')
  end.

End Sorted.

(** ** The program *)

Definition root : path := [str_of "docs"; str_of "plans"].

(** The list comprehension of [main]. *)
Definition files (fs : node) : list path :=
  filter (fun p => is_file fs p
                   && negb (str_eqb (lower (name p)) (str_of "readme.md")))
         (rglob_md fs root).

(** The loop over the sorted files: what is printed, and how the loop ends.
    An exception stops it after the output of the files before. *)
Fixpoint audit (fs : node) (ps : list path) : list str * result Z :=
  match ps with
  | [] => ([], Ok 0)
  | p :: ps' =>
      match read_text fs p with
      | Raise e => ([], Raise e)
      | Ok text =>
          match report_lines (as_posix p) (scan text) with
          | Raise e => ([], Raise e)
          | Ok ls =>
              let (out, res) := audit fs ps' in (ls ++ out, res)
          end
      end
  end.

(** [main()], run in the directory [fs]: the printed lines and the value
    returned.  The call of [sys.stdout.reconfigure] at its start only
    changes how the lines are encoded, and its failure is ignored. *)
Definition main (fs : node) : list str * result Z :=
  audit fs (sorted as_posix (files fs)).

(** [raise SystemExit(main())]: the exit status of the process. *)
Definition exit_status (res : result Z) : Z :=
  match res with
  | Ok code => code
  | Raise _ => 1
  end.

(** * Vocabulary of the statements *)

(** The longest prefix of [s] in the class [p], and what follows it. *)
Fixpoint run (p : char -> bool) (s : str) : str :=
  match s with
  | c :: s' => if p c then c :: run p s' else []
  | [] => []
  end.

Fixpoint after (p : char -> bool) (s : str) : str :=
  match s with
  | c :: s' => if p c then after p s' else s
  | [] => []
  end.

(** Whitespace only. *)
Definition spaces (w : str) : Prop := forallb is_space w = true.

(** No line feed: every line of a file is such a text. *)
Definition no_LF (s : str) : Prop := forallb is_dot s = true.

Definition SPACE : char := 0x20%N.
Definition LOWER_X : char := 0x78%N.
Definition UPPER_X : char := 0x58%N.
Definition TILDE : char := 0x7E%N.

(** The state characters the pattern accepts. *)
Definition state_char (c : char) : Prop :=
  c = SPACE \/ c = LOWER_X \/ c = UPPER_X \/ c = TILDE.

(** The lines the pattern accepts: whitespace, a marker, whitespace, a
    bracketed state character, whitespace, and a text free of line feeds
    that one line feed may end.  Each whitespace may be empty. *)
Definition checkbox_shape (line : str) : Prop :=
  exists ws m ws' c ws'' txt nl,
    line = ws ++ m :: ws' ++ LBRACKET :: c :: RBRACKET :: ws'' ++ txt ++ nl
    /\ spaces ws /\ is_marker m = true /\ spaces ws' /\ state_char c
    /\ spaces ws'' /\ no_LF txt /\ (nl = [] \/ nl = [LF]).

(** The lines the specification describes: exactly one space after the
    marker and exactly one after the closing bracket, and any character as
    the state. *)
Definition strict_shape (line : str) : Prop :=
  exists ws m c txt,
    line = ws ++ m :: SPACE :: LBRACKET :: c :: RBRACKET :: SPACE :: txt
    /\ spaces ws /\ is_marker m = true.

(** What the three branches of the loop body do to the counters. *)
Definition count_done (r : report) : report :=
  mkReport (total r + 1) (done r + 1) (impl r) (unchecked r).

Definition count_impl (r : report) : report :=
  mkReport (total r + 1) (done r) (impl r + 1) (unchecked r).

Definition count_unchecked (r : report) (e : Z * str) : report :=
  mkReport (total r + 1) (done r) (impl r) (unchecked r ++ [e]).

(** The three states share out the total. *)
Definition counts_agree (r : report) : Prop :=
  done r + impl r + Z.of_nat (length (unchecked r)) = total r.

(** The checkbox state of a line, [None] for a line that is no task. *)
Inductive state := Done | InProgress | Unchecked.

Definition classify (line : str) : option state :=
  match pat_match line with
  | None => None
  | Some (g1, _) =>
      if str_eqb (lower g1) (str_of "x") then Some Done
      else if str_eqb (lower g1) (str_of "~") then Some InProgress
      else Some Unchecked
  end.

Definition has_state (st : state) (line : str) : bool :=
  match classify line, st with
  | Some Done, Done | Some InProgress, InProgress
  | Some Unchecked, Unchecked => true
  | _, _ => false
  end.

Definition is_task (line : str) : bool :=
  match classify line with Some _ => true | None => false end.

(** How many of the lines satisfy [f]. *)
Definition count (f : str -> bool) (lines : list str) : Z :=
  Z.of_nat (length (filter f lines)).

(** The unchecked lines among numbered lines, in the order of the lines,
    each with its number and its stripped description. *)
Definition unchecked_entries (ils : list (Z * str)) : list (Z * str) :=
  flat_map (fun il : Z * str =>
              let (i, line) := il in
              match pat_match line with
              | Some (_, g2) =>
                  if has_state Unchecked line then [(i, strip g2)] else []
              | None => []
              end) ils.

(** The reports the loop can produce. *)
Definition well_formed (r : report) : Prop :=
  0 <= done r /\ 0 <= impl r /\ counts_agree r.

(** The percentage as it is printed. *)
Definition percent_text (done total : Z) : result str :=
  match percent done total with
  | Ok pct => Ok (format_0f pct)
  | Raise e => Raise e
  end.

(** File systems keep the names of a directory distinct and free of
    slashes. *)
Definition name_ok (nm : str) : bool := negb (existsb (N.eqb SLASH) nm).

Fixpoint distinct (l : list str) : bool :=
  match l with
  | [] => true
  | x :: l' => negb (existsb (str_eqb x) l') && distinct l'
  end.

Fixpoint wf_fs (n : node) : bool :=
  match n with
  | File _ => true
  | Dir es =>
      forallb name_ok (map fst es) && distinct (map fst es)
      && (fix all (es : list (str * node)) : bool :=
            match es with
            | [] => true
            | (_, x) :: es' => wf_fs x && all es'
            end) es
  end.

(** The paths [walk] lists for the entries [es] of the directory [here]. *)
Definition walk_entries (here : path) (es : list (str * node)) : list path :=
  flat_map (fun e : str * node =>
              (if glob_md (fst e) then [here ++ [fst e]] else [])
                ++ walk (here ++ [fst e]) (snd e)) es.

(** The order of the sorted paths. *)
Definition path_lt (p q : path) : Prop :=
  str_ltb (as_posix p) (as_posix q) = true.

(** The files discovery is meant to find: the regular files below the
    root whose name ends with [.md] and is not README.md in any case. *)
Definition is_plan (fs : node) (p : path) : Prop :=
  (exists rel, p = root ++ rel /\ rel <> [])
  /\ is_file fs p = true
  /\ (exists stem, name p = stem ++ str_of ".md")
  /\ lower (name p) <> str_of "readme.md".

(** A small tree: two plans, one of them in a directory, a README, a file
    that cannot be read as text, and a directory named like a plan. *)
Definition sample_fs : node :=
  Dir [(str_of "docs",
        Dir [(str_of "plans",
              Dir [(str_of "b.md", File (Some (str_of "- [x] a")));
                   (str_of "ReadMe.md", File (Some (str_of "- [ ] b")));
                   (str_of "a",
                    Dir [(str_of "z.md", File (Some (str_of "prose")));
                         (str_of "README.md", File None);
                         (str_of "q.md", Dir [])]);
                   (str_of "notes.txt", File None)])])].

(** What the loop prints for the file at [p]: its report, and nothing when
    the file cannot be read. *)
Definition block (fs : node) (p : path) : list str :=
  match read_text fs p with
  | Ok text =>
      match report_lines (as_posix p) (scan text) with
      | Ok ls => ls
      | Raise _ => []
      end
  | Raise _ => []
  end.

(** A text that neither starts nor ends with whitespace. *)
Definition trimmed (s : str) : Prop :=
  (forall c t, s = c :: t -> is_space c = false)
  /\ (forall t c, s = t ++ [c] -> is_space c = false).

(** The start of a task line: whitespace, a marker, whitespace and a
    bracketed state character, followed by [rest]. *)
Definition task_start (line rest : str) : Prop :=
  exists ws m ws' c,
    line = ws ++ m :: ws' ++ LBRACKET :: c :: RBRACKET :: rest
    /\ spaces ws /\ is_marker m = true /\ spaces ws' /\ state_char c.

(** Three plans, the second of which cannot be read. *)
Definition sample_fs_unreadable : node :=
  Dir [(str_of "docs",
        Dir [(str_of "plans",
              Dir [(str_of "c.md", File (Some (str_of "- [ ] late")));
                   (str_of "b.md", File None);
                   (str_of "a.md", File (Some (str_of "- [x] early")))])])].

(** Reading a decimal text back as an integer. *)
Definition text_of (s : str) : string :=
  string_of_list_ascii (map ascii_of_N s).

Definition int_of_str (s : str) : option Z :=
  option_map Z.of_int (NilZero.int_of_string (text_of s)).

(** [n] is the integer nearest to [m * 2^e], and the even one of the two
    when [m * 2^e] lies half way between two integers. *)
Definition nearest_integer (m : positive) (e : Z) (n : Z) : Prop :=
  if 0 <=? e then n = Zpos m * 2 ^ e
  else
    2 * Z.abs (n * 2 ^ (- e) - Zpos m) <= 2 ^ (- e)
    /\ (2 * Z.abs (n * 2 ^ (- e) - Zpos m) = 2 ^ (- e) -> Z.even n = true).

(** Equal up to the case of the ASCII letters. *)
Definition case_pair (x y : char) : Prop :=
  x = y
  \/ ((0x41 <= x <= 0x5A)%N /\ y = (x + 0x20)%N)
  \/ ((0x41 <= y <= 0x5A)%N /\ x = (y + 0x20)%N).

Definition same_ignoring_case (a b : str) : Prop := Forall2 case_pair a b.

(** A name that is README.md in some case. *)
Definition is_readme (nm : str) : Prop :=
  same_ignoring_case nm (str_of "README.md").

(** The files discovery finds: the regular files below the root whose
    name ends with [.md], the name [.md] itself being one, and is not
    README.md in any case. *)
Definition found_file (fs : node) (p : path) : Prop :=
  (exists rel, p = root ++ rel /\ rel <> [])
  /\ (exists text, lookup fs p = Some (File text))
  /\ (exists stem, name p = stem ++ str_of ".md")
  /\ ~ is_readme (name p).

(** A name with the extension [.md], which is what [p.suffix] says: some
    text, not empty, before the last dot. *)
Definition has_md_extension (nm : str) : Prop :=
  exists stem, stem <> [] /\ nm = stem ++ str_of ".md".

(** The files the specification describes. *)
Definition spec_file (fs : node) (p : path) : Prop :=
  (exists rel, p = root ++ rel /\ rel <> [])
  /\ (exists text, lookup fs p = Some (File text))
  /\ has_md_extension (name p)
  /\ ~ is_readme (name p).

(** A tree whose only plan is named [.md]. *)
Definition dotfile_fs : node :=
  Dir [(str_of "docs",
        Dir [(str_of "plans",
              Dir [(str_of ".md", File (Some (str_of "- [ ] a")))])])].

(** The rest of a pattern, [k], never loses by a longer run of the star
    before it. *)
Definition pushes {R : Type} (p : char -> bool)
  (k : str -> str -> option R) : Prop :=
  forall w c t, p c = true -> k w (c :: t) <> None -> k (w ++ [c]) t <> None.

(** [x] is not after [y] in the order of the keys. *)
Definition key_le {A : Type} (key : A -> str) (x y : A) : Prop :=
  str_ltb (key y) (key x) = false.

(** Case analysis on the comparisons of code points in sight. *)
Ltac char_case :=
  match goal with
  | |- context [N.eqb ?a ?b] => destruct (N.eqb_spec a b)
  | |- context [N.leb ?a ?b] => destruct (N.leb_spec a b)
  | H : context [N.eqb ?a ?b] |- _ => destruct (N.eqb_spec a b)
  | H : context [N.leb ?a ?b] |- _ => destruct (N.leb_spec a b)
  end.

Ltac chars :=
  unfold state_char, is_space, is_marker, is_state, is_dot, is_linebreak,
    lower_char, LF, CR, LBRACKET, RBRACKET, SPACE, LOWER_X, UPPER_X, TILDE
    in *;
  repeat (char_case; try (exfalso; lia); cbn [andb orb negb] in *);
  try discriminate; try lia; auto.

(** * Properties *)

Lemma scan_line_counts r il :
  counts_agree r -> counts_agree (scan_line r il).
Proof.
  unfold counts_agree, scan_line. destruct il as [i line].
  destruct (pat_match line) as [[g1 g2]|]; auto.
  destruct (str_eqb (lower g1) (str_of "x")); cbn [total done impl unchecked].
  - lia.
  - destruct (str_eqb (lower g1) (str_of "~")); cbn [total done impl unchecked].
    + lia.
    + rewrite length_app. cbn [length]. lia.
Qed.

Lemma scan_lines_counts ils : forall r,
  counts_agree r -> counts_agree (scan_lines r ils).
Proof.
  induction ils as [|il ils IH]; intros r Hr; cbn; auto.
  apply IH, scan_line_counts, Hr.
Qed.

(** C1: in the report of every document the done, in-progress and unchecked
    lines add up to the total; line by line, the loop body leaves the report
    as it is or counts the line once, in one of the three states. *)
Theorem scan_counts_add_up (text : str) :
  done (scan text) + impl (scan text)
    + Z.of_nat (length (unchecked (scan text)))
  = total (scan text)
  /\ forall r i line,
       scan_line r (i, line) = r
       \/ scan_line r (i, line) = count_done r
       \/ scan_line r (i, line) = count_impl r
       \/ exists txt, scan_line r (i, line) = count_unchecked r (i, txt).
Proof.
  split.
  - apply (scan_lines_counts _ empty_report). reflexivity.
  - intros r i line. unfold scan_line.
    destruct (pat_match line) as [[g1 g2]|]; [|now left].
    destruct (str_eqb (lower g1) (str_of "x")); [now right; left|].
    destruct (str_eqb (lower g1) (str_of "~")); [now right; right; left|].
    right; right; right. now exists (strip g2).
Qed.

(** ** The greedy star *)

Section Star.
Context {R : Type} (p : char -> bool).

Lemma run_after s : run p s ++ after p s = s.
Proof.
  induction s as [|c s IH]; cbn; auto.
  destruct (p c); cbn; congruence.
Qed.

Lemma run_in_class s : forallb p (run p s) = true.
Proof.
  induction s as [|c s IH]; cbn; auto.
  destruct (p c) eqn:Hc; cbn; auto. now rewrite Hc.
Qed.

Lemma run_stop w c t :
  forallb p w = true -> p c = false ->
  run p (w ++ c :: t) = w /\ after p (w ++ c :: t) = c :: t.
Proof.
  intros Hw Hc. induction w as [|x w IH]; cbn in *.
  - now rewrite Hc.
  - apply andb_prop in Hw. destruct Hw as [Hx Hw]. rewrite Hx.
    destruct (IH Hw) as [-> ->]. auto.
Qed.

Lemma run_whole w :
  forallb p w = true -> run p w = w /\ after p w = [].
Proof.
  intros Hw. induction w as [|x w IH]; cbn in *; auto.
  apply andb_prop in Hw. destruct Hw as [Hx Hw]. rewrite Hx.
  destruct (IH Hw) as [-> ->]. auto.
Qed.

(** A match of the star splits the input into a run and the rest. *)
Lemma re_star_inv s : forall (k : str -> str -> option R) r,
  re_star p s k = Some r ->
  exists w t, s = w ++ t /\ forallb p w = true /\ k w t = Some r.
Proof.
  induction s as [|c s IH]; intros k r H; cbn in H.
  - exists [], []. auto.
  - destruct (p c) eqn:Hc.
    + destruct (re_star p s (fun w => k (c :: w))) as [r'|] eqn:E.
      * inversion H; subst r'. apply IH in E.
        destruct E as (w & t & -> & Hw & Hk).
        exists (c :: w), t. cbn. rewrite Hc, Hw. auto.
      * exists [], (c :: s). auto.
    + exists [], (c :: s). auto.
Qed.

(** Any split the rest of the pattern accepts makes the star match. *)
Lemma re_star_complete w : forall (k : str -> str -> option R) t,
  forallb p w = true -> k w t <> None -> re_star p (w ++ t) k <> None.
Proof.
  induction w as [|c w IH]; intros k t Hw Hk; cbn in *.
  - destruct t as [|c t]; cbn; auto.
    destruct (p c); auto.
    destruct (re_star p t (fun w => k (c :: w))); auto; discriminate.
  - apply andb_prop in Hw. destruct Hw as [Hc Hw]. rewrite Hc.
    specialize (IH (fun w' => k (c :: w')) t Hw Hk).
    destruct (re_star p (w ++ t) (fun w' => k (c :: w')));
      [discriminate | congruence].
Qed.

Lemma pushes_run (k : str -> str -> option R) : pushes p k ->
  forall s w, k w s <> None -> k (w ++ run p s) (after p s) <> None.
Proof.
  intros Hk s. induction s as [|c s IH]; intros w H; cbn.
  - now rewrite app_nil_r.
  - destruct (p c) eqn:Hc.
    + replace (w ++ c :: run p s) with ((w ++ [c]) ++ run p s)
        by (rewrite <- app_assoc; reflexivity).
      apply IH, Hk; auto.
    + now rewrite app_nil_r.
Qed.

(** Then backtracking is idle: the star takes the longest run. *)
Lemma re_star_greedy s : forall k : str -> str -> option R,
  pushes p k -> re_star p s k = k (run p s) (after p s).
Proof.
  induction s as [|c s IH]; intros k Hk; cbn; auto.
  destruct (p c) eqn:Hc; auto.
  rewrite IH.
  2:{ intros w c' t Hc' H. apply (Hk (c :: w)); auto. }
  destruct (k (c :: run p s) (after p s)) eqn:E; auto.
  destruct (k [] (c :: s)) eqn:E0; auto.
  exfalso.
  assert (H : k ([] ++ [c]) s <> None) by (apply Hk; auto; congruence).
  apply (pushes_run k Hk s) in H. cbn in H. congruence.
Qed.

End Star.

(** ** Character classes *)

Lemma marker_not_space c : is_marker c = true -> is_space c = false.
Proof. intros H. chars. Qed.

Lemma space_not_marker c : is_space c = true -> is_marker c = false.
Proof. intros H. chars. Qed.

Lemma space_not_bracket c : is_space c = true -> N.eqb LBRACKET c = false.
Proof. intros H. chars. Qed.

Lemma LF_is_space c : is_dot c = false -> is_space c = true.
Proof. intros H. chars. Qed.

Lemma is_state_spec c : is_state c = true <-> state_char c.
Proof.
  split; intros H.
  - chars.
  - destruct H as [-> | [-> | [-> | ->]]]; reflexivity.
Qed.

Lemma lstrip_after s : lstrip s = after is_space s.
Proof.
  induction s as [|c s IH]; cbn; auto. now rewrite IH.
Qed.

(** ** The pattern *)

(** The last three pieces of the pattern: the star over [.] before [$]
    takes everything up to the first line feed. *)
Lemma dot_star_closed {R : Type} (f : str -> R) s :
  re_star is_dot s (fun g2 s8 => re_eol s8 (Some (f g2)))
  = re_eol (after is_dot s) (Some (f (run is_dot s))).
Proof.
  apply (re_star_greedy is_dot s
           (fun g2 s8 => re_eol s8 (Some (f g2)))).
  intros w c t Hc H. exfalso. apply H.
  destruct t as [|d t]; cbn; auto.
  unfold is_dot in Hc. now destruct (c =? LF)%N.
Qed.

Lemma tail_closed {R : Type} (f : str -> R) rest :
  re_star is_space rest (fun _ s7 =>
    re_star is_dot s7 (fun g2 s8 => re_eol s8 (Some (f g2))))
  = re_eol (after is_dot (lstrip rest)) (Some (f (run is_dot (lstrip rest)))).
Proof.
  rewrite re_star_greedy.
  - now rewrite dot_star_closed, lstrip_after.
  - intros w c t Hc. rewrite !dot_star_closed. cbn [after].
    destruct (is_dot c) eqn:Hd.
    + destruct (after is_dot t) as [|x [|y l]]; cbn; try congruence.
      destruct (x =? LF)%N; congruence.
    + destruct t as [|d t]; cbn; congruence.
Qed.

(** The match on a line given by its pieces. *)
Lemma pat_match_shape ws m ws' c rest :
  spaces ws -> is_marker m = true -> spaces ws' ->
  pat_match (ws ++ m :: ws' ++ LBRACKET :: c :: RBRACKET :: rest)
  = if is_state c
    then re_eol (after is_dot (lstrip rest))
                (Some ([c], run is_dot (lstrip rest)))
    else None.
Proof.
  intros Hws Hm Hws'. unfold pat_match.
  rewrite re_star_greedy.
  2:{ intros w x t Hx H. exfalso. apply H. cbn [re_char].
      now rewrite (space_not_marker x Hx). }
  destruct (run_stop is_space ws m
              (ws' ++ LBRACKET :: c :: RBRACKET :: rest)
              Hws (marker_not_space m Hm)) as [_ ->].
  cbn [re_char]. rewrite Hm.
  rewrite re_star_greedy.
  2:{ intros w x t Hx H. exfalso. apply H. cbn [re_char].
      now rewrite (space_not_bracket x Hx). }
  destruct (run_stop is_space ws' LBRACKET (c :: RBRACKET :: rest)
              Hws' eq_refl) as [_ ->].
  cbn [re_char]. rewrite !N.eqb_refl.
  destruct (is_state c); [|reflexivity].
  apply (tail_closed (fun g2 => ([c], g2))).
Qed.

(** Every match is a match on such a line. *)
Lemma pat_match_inv line g1 g2 :
  pat_match line = Some (g1, g2) ->
  exists ws m ws' c ws'' nl,
    line = ws ++ m :: ws' ++ LBRACKET :: c :: RBRACKET :: ws'' ++ g2 ++ nl
    /\ spaces ws /\ is_marker m = true /\ spaces ws' /\ is_state c = true
    /\ spaces ws'' /\ no_LF g2 /\ (nl = [] \/ nl = [LF]) /\ g1 = [c].
Proof.
  unfold pat_match. intros H.
  apply re_star_inv in H. destruct H as (ws & t1 & -> & Hws & H).
  destruct t1 as [|m t2]; cbn [re_char] in H; try discriminate.
  destruct (is_marker m) eqn:Hm; try discriminate.
  apply re_star_inv in H. destruct H as (ws' & t3 & -> & Hws' & H).
  destruct t3 as [|b t4]; cbn [re_char] in H; try discriminate.
  destruct (N.eqb_spec LBRACKET b) as [<-|]; try discriminate.
  destruct t4 as [|c t5]; cbn [re_char] in H; try discriminate.
  destruct (is_state c) eqn:Hc; try discriminate.
  destruct t5 as [|d t6]; cbn [re_char] in H; try discriminate.
  destruct (N.eqb_spec RBRACKET d) as [<-|]; try discriminate.
  apply re_star_inv in H. destruct H as (ws'' & t7 & -> & Hws'' & H).
  apply re_star_inv in H. destruct H as (txt & nl & -> & Htxt & H).
  exists ws, m, ws', c, ws'', nl.
  destruct nl as [|x [|y nl]]; cbn [re_eol] in H; try discriminate.
  - inversion H; subst. repeat split; auto.
  - destruct (N.eqb_spec x LF) as [->|]; try discriminate.
    inversion H; subst. repeat split; auto.
Qed.

Lemma pat_match_iff_shape line :
  pat_match line <> None <-> checkbox_shape line.
Proof.
  split.
  - destruct (pat_match line) as [[g1 g2]|] eqn:E; [intros _|congruence].
    apply pat_match_inv in E.
    destruct E as (ws & m & ws' & c & ws'' & nl & E & H1 & H2 & H3 & H4
                   & H5 & H6 & H7 & _).
    exists ws, m, ws', c, ws'', g2, nl.
    rewrite is_state_spec in H4. repeat split; auto.
  - intros (ws & m & ws' & c & ws'' & txt & nl & -> & H1 & H2 & H3 & H4
            & H5 & H6 & H7).
    apply is_state_spec in H4. unfold pat_match.
    apply re_star_complete; auto. cbn [re_char]. rewrite H2.
    apply re_star_complete; auto. cbn [re_char].
    rewrite !N.eqb_refl, H4.
    apply re_star_complete; auto.
    apply re_star_complete; auto.
    destruct H7 as [-> | ->]; cbn; discriminate.
Qed.

Lemma lstrip_suffix s : exists w, s = w ++ lstrip s.
Proof.
  induction s as [|c s [w IH]]; cbn.
  - now exists [].
  - destruct (is_space c).
    + exists (c :: w). cbn. congruence.
    + now exists [].
Qed.

Lemma no_LF_lstrip s : no_LF s -> no_LF (lstrip s).
Proof.
  unfold no_LF. intros H. destruct (lstrip_suffix s) as [w E].
  rewrite E, forallb_app in H. now apply andb_prop in H.
Qed.

Lemma lstrip_idem s : lstrip (lstrip s) = lstrip s.
Proof.
  induction s as [|c s IH]; cbn; auto.
  destruct (is_space c) eqn:E; auto. cbn. now rewrite E.
Qed.

Lemma strip_lstrip s : strip (lstrip s) = strip s.
Proof. unfold strip. now rewrite lstrip_idem. Qed.

(** The match on a line of a file given by its pieces: the second group is
    what follows the bracket, without the whitespace before it. *)
Lemma pat_match_line ws m ws' c rest :
  spaces ws -> is_marker m = true -> spaces ws' -> no_LF rest ->
  pat_match (ws ++ m :: ws' ++ LBRACKET :: c :: RBRACKET :: rest)
  = if is_state c then Some ([c], lstrip rest) else None.
Proof.
  intros Hws Hm Hws' Hrest. rewrite pat_match_shape by assumption.
  destruct (run_whole is_dot (lstrip rest) (no_LF_lstrip rest Hrest))
    as [-> ->].
  reflexivity.
Qed.

(** The lines of a file hold no line boundary, so no line feed. *)
Lemma splitlines_from_no_break n : forall s cur,
  (length s <= n)%nat ->
  forallb (fun c => negb (is_linebreak c)) cur = true ->
  Forall (fun l => forallb (fun c => negb (is_linebreak c)) l = true)
         (splitlines_from cur s).
Proof.
  induction n as [|n IH]; intros s cur Hn Hcur.
  - destruct s; [|cbn in Hn; lia]. cbn. destruct cur; repeat constructor.
    exact Hcur.
  - destruct s as [|c s]; cbn [splitlines_from].
    + destruct cur; repeat constructor. exact Hcur.
    + cbn [length] in Hn. destruct (is_linebreak c) eqn:B.
      * destruct s as [|d s]; [repeat constructor; exact Hcur|].
        cbn [length] in Hn.
        destruct ((c =? CR)%N && (d =? LF)%N);
          (constructor; [exact Hcur|apply IH; [cbn [length]; lia|reflexivity]]).
      * apply IH; [lia|]. rewrite forallb_app, Hcur. cbn. now rewrite B.
Qed.

Lemma splitlines_no_LF text line :
  In line (splitlines text) -> no_LF line.
Proof.
  intros H.
  pose proof (splitlines_from_no_break (length text) text [] (le_n _) eq_refl)
    as F.
  rewrite Forall_forall in F. specialize (F line H).
  unfold no_LF. rewrite forallb_forall in *. intros c Hc.
  specialize (F c Hc). chars.
Qed.

(** ** Classification of a line *)

(** C3, amended: a line is counted exactly when it has the shape the
    pattern accepts, in which the whitespace after the marker and after the
    closing bracket may be missing or longer than one space, and the state
    is one of space, x, X and ~; a line of any other shape leaves the report
    as it was. *)
Theorem counted_iff_checkbox_shape (r : report) (i : Z) (line : str) :
  (total (scan_line r (i, line)) = total r + 1 <-> checkbox_shape line)
  /\ (~ checkbox_shape line -> scan_line r (i, line) = r).
Proof.
  rewrite <- pat_match_iff_shape. unfold scan_line.
  destruct (pat_match line) as [[g1 g2]|].
  - split; [|intros H; exfalso; apply H; discriminate].
    split; [intros _; discriminate|intros _].
    destruct (str_eqb (lower g1) (str_of "x")); [reflexivity|].
    destruct (str_eqb (lower g1) (str_of "~")); reflexivity.
  - split; [|reflexivity].
    split; [lia|congruence].
Qed.

(** C3 as the specification has it fails on a checkbox without the space
    after the closing bracket: the line is counted, as an unchecked task. *)
Lemma missing_space_is_counted :
  ~ (total (scan (str_of "- [ ]b")) = 1 <-> strict_shape (str_of "- [ ]b"))
  /\ scan (str_of "- [ ]b") = mkReport 1 0 0 [(1, str_of "b")].
Proof.
  split; [|reflexivity].
  intros [H _]. destruct (H eq_refl) as (ws & m & c & txt & E & Hws & _).
  destruct ws as [|a ws]; vm_compute in E.
  - discriminate.
  - inversion E; subst a. discriminate.
Qed.

(** C2, amended: on a line with a bracketed character after the marker,
    the character alone decides: x or X counts a done task, ~ one in
    progress, a space an unchecked one, and with any other character the
    line is no task line and the report stays as it was. *)
Theorem state_char_decides
  (r : report) (i : Z) (ws : str) (m : char) (ws' : str) (c : char)
  (rest : str) :
  spaces ws -> is_marker m = true -> spaces ws' -> no_LF rest ->
  scan_line r (i, ws ++ m :: ws' ++ LBRACKET :: c :: RBRACKET :: rest)
  = if ((c =? LOWER_X) || (c =? UPPER_X))%N then count_done r
    else if (c =? TILDE)%N then count_impl r
    else if (c =? SPACE)%N then count_unchecked r (i, strip rest)
    else r.
Proof.
  intros Hws Hm Hws' Hrest. unfold scan_line.
  rewrite pat_match_line by assumption.
  destruct (N.eqb_spec c LOWER_X) as [->|N1]; [reflexivity|].
  destruct (N.eqb_spec c UPPER_X) as [->|N2]; [reflexivity|].
  destruct (N.eqb_spec c TILDE) as [->|N3]; [reflexivity|].
  destruct (N.eqb_spec c SPACE) as [->|N4].
  - cbn. now rewrite strip_lstrip.
  - replace (is_state c) with false; [reflexivity|]. symmetry. chars.
Qed.

Lemma state_char_decides_witness :
  spaces [] /\ is_marker 0x2D%N = true /\ spaces [SPACE]
  /\ no_LF (str_of " text")
  /\ scan_line empty_report (1, str_of "- [z] text") = empty_report.
Proof.
  refine (conj eq_refl (conj eq_refl (conj eq_refl (conj eq_refl _)))).
  exact (state_char_decides empty_report 1 [] 0x2D%N [SPACE] 0x7A%N
           (str_of " text") eq_refl eq_refl eq_refl eq_refl).
Defined.

(** C2 as the specification has it fails on [- [z] text]: the line is no
    task line, and nothing of it reaches the report. *)
Lemma other_state_not_counted :
  scan (str_of "- [z] text") = empty_report
  /\ ~ (exists e, In e (unchecked (scan (str_of "- [z] text")))).
Proof.
  split; [reflexivity|]. intros [e H]. exact H.
Qed.

(** C7: with the state in either case, [X] or [x], the line counts as a
    done task. *)
Theorem upper_and_lower_x_done
  (r : report) (i : Z) (ws : str) (m : char) (ws' rest : str) :
  spaces ws -> is_marker m = true -> spaces ws' -> no_LF rest ->
  scan_line r (i, ws ++ m :: ws' ++ LBRACKET :: UPPER_X :: RBRACKET :: rest)
    = count_done r
  /\ scan_line r (i, ws ++ m :: ws' ++ LBRACKET :: LOWER_X :: RBRACKET :: rest)
    = count_done r.
Proof.
  intros Hws Hm Hws' Hrest. unfold scan_line.
  rewrite !pat_match_line by assumption. split; reflexivity.
Qed.

Lemma upper_and_lower_x_done_witness :
  spaces [SPACE] /\ is_marker 0x2A%N = true /\ spaces [] /\ no_LF (str_of " a")
  /\ scan_line empty_report (1, str_of " *[X] a") = mkReport 1 1 0 []
  /\ scan_line empty_report (1, str_of " *[x] a") = mkReport 1 1 0 [].
Proof.
  refine (conj eq_refl (conj eq_refl (conj eq_refl (conj eq_refl _)))).
  exact (upper_and_lower_x_done empty_report 1 [SPACE] 0x2A%N []
           (str_of " a") eq_refl eq_refl eq_refl eq_refl).
Defined.



(** ** The quotient of two counts is a float *)

Lemma pow2_succ k : 0 <= k -> 2 ^ (k + 1) = 2 * 2 ^ k.
Proof. intros H. rewrite Z.pow_add_r by lia. lia. Qed.

Lemma digits2_size p : digits2_pos p = Pos.size p.
Proof. induction p; cbn; congruence. Qed.

Lemma Zdigits2_bound m k :
  0 <= m <= 2 ^ k -> 0 <= k -> Zdigits2 m <= k + 1.
Proof.
  intros [H0 Hm] Hk. destruct m as [|p|p]; cbn; try lia.
  rewrite digits2_size.
  assert (H : 2 ^ Zpos (Pos.size p) <= 2 ^ (k + 1)).
  { rewrite pow2_succ by assumption.
    rewrite <- (Pos2Z.inj_pow 2 (Pos.size p)).
    pose proof (Pos.size_le p). lia. }
  apply Z.pow_le_mono_r_iff in H; lia.
Qed.

Lemma shr_1_half mrs :
  0 <= shr_m mrs -> shr_m (shr_1 mrs) = shr_m mrs / 2.
Proof.
  destruct mrs as [m r s]. cbn [shr_m]. intros H.
  destruct m as [|[p|p|]|]; cbn [shr_1 shr_m]; try lia; try reflexivity.
  - apply Z.div_unique with (r := 1); lia.
  - apply Z.div_unique with (r := 0); lia.
Qed.

Lemma iter_shr_1 p : forall mrs,
  0 <= shr_m mrs ->
  shr_m (iter_pos shr_1 p mrs) = shr_m mrs / 2 ^ Zpos p.
Proof.
  induction p as [p IH|p IH|]; intros mrs H; cbn [iter_pos].
  - assert (H1 : 0 <= shr_m (shr_1 mrs))
      by (rewrite shr_1_half by assumption; apply Z.div_pos; lia).
    assert (H2 : 0 <= shr_m (iter_pos shr_1 p (shr_1 mrs)))
      by (rewrite IH by assumption; apply Z.div_pos; lia).
    rewrite IH, IH, shr_1_half by assumption.
    rewrite !Z.div_div by lia. f_equal.
    replace (Z.pos p~1) with (Z.pos p + Z.pos p + 1) by lia.
    rewrite pow2_succ, Z.pow_add_r by lia. reflexivity.
  - assert (H2 : 0 <= shr_m (iter_pos shr_1 p mrs))
      by (rewrite IH by assumption; apply Z.div_pos; lia).
    rewrite IH, IH by assumption.
    rewrite !Z.div_div by lia. f_equal.
    replace (Z.pos p~0) with (Z.pos p + Z.pos p) by lia.
    rewrite Z.pow_add_r by lia. reflexivity.
  - rewrite shr_1_half by assumption. reflexivity.
Qed.

Lemma shr_record_of_loc_m m l : shr_m (shr_record_of_loc m l) = m.
Proof. destruct l as [|[]]; reflexivity. Qed.

(** [shr_fexp] keeps the mantissa and the exponent, or moves to the
    exponent [fexp] gives and divides the mantissa accordingly. *)
Lemma shr_fexp_cases m e l :
  0 <= m ->
  (snd (shr_fexp prec emax m e l) = e
   /\ shr_m (fst (shr_fexp prec emax m e l)) = m)
  \/ (snd (shr_fexp prec emax m e l) = fexp prec emax (Zdigits2 m + e)
      /\ e < fexp prec emax (Zdigits2 m + e)
      /\ shr_m (fst (shr_fexp prec emax m e l))
         = m / 2 ^ (fexp prec emax (Zdigits2 m + e) - e)).
Proof.
  intros Hm. unfold shr_fexp, shr.
  destruct (fexp prec emax (Zdigits2 m + e) - e) as [|p|p] eqn:E;
    cbn [fst snd].
  - left. now rewrite shr_record_of_loc_m.
  - right. rewrite iter_shr_1 by (rewrite shr_record_of_loc_m; assumption).
    rewrite shr_record_of_loc_m. repeat split; lia.
  - left. now rewrite shr_record_of_loc_m.
Qed.

Lemma round_nearest_even_bounds m l :
  m <= round_nearest_even m l <= m + 1.
Proof.
  destruct l as [|[]]; cbn; try lia. destruct (Z.even m); lia.
Qed.

Lemma fexp_small d : d <= 2 -> fexp prec emax d <= -51.
Proof. unfold fexp, emin, prec, emax. lia. Qed.

(** A mantissa and an exponent standing for a number that is at most 1
    round to a finite float or to a zero. *)
Lemma binary_round_aux_small s mx ex lx :
  ex <= 0 -> 0 <= mx <= 2 ^ (- ex) ->
  forall s', binary_round_aux prec emax s mx ex lx <> S754_infinity s'.
Proof.
  intros Hex [Hm0 Hm] s'. unfold binary_round_aux.
  destruct (shr_fexp prec emax mx ex lx) as [mrs1 e1] eqn:E1.
  pose proof (shr_fexp_cases mx ex lx Hm0) as C1. rewrite E1 in C1.
  cbn [fst snd] in C1.
  assert (D : Zdigits2 mx + ex <= 1)
    by (pose proof (Zdigits2_bound mx (- ex)); lia).
  assert (B1 : e1 <= 0 /\ 0 <= shr_m mrs1 <= 2 ^ (- e1)).
  { destruct C1 as [[-> ->] | (-> & Hlt & ->)]; [lia|].
    pose proof (fexp_small (Zdigits2 mx + ex)).
    set (f := fexp prec emax (Zdigits2 mx + ex)) in *.
    split; [lia|]. split; [apply Z.div_pos; lia|].
    apply Z.div_le_upper_bound; [lia|].
    rewrite <- Z.pow_add_r by lia. now replace (f - ex + - f) with (- ex) by lia. }
  destruct B1 as (He1 & Hm1 & Hm1').
  set (m2 := round_nearest_even (shr_m mrs1) (loc_of_shr_record mrs1)).
  pose proof (round_nearest_even_bounds (shr_m mrs1) (loc_of_shr_record mrs1))
    as Hm2. fold m2 in Hm2.
  destruct (shr_fexp prec emax m2 e1 loc_Exact) as [mrs2 e2] eqn:E2.
  pose proof (shr_fexp_cases m2 e1 loc_Exact ltac:(lia)) as C2.
  rewrite E2 in C2. cbn [fst snd] in C2.
  assert (D2 : Zdigits2 m2 + e1 <= 2).
  { pose proof (Zdigits2_bound m2 (1 - e1)).
    assert (2 ^ (1 - e1) = 2 * 2 ^ (- e1))
      by (rewrite <- pow2_succ by lia; f_equal; lia).
    assert (0 < 2 ^ (- e1)) by (apply Z.pow_pos_nonneg; lia).
    lia. }
  assert (B2 : e2 <= 0).
  { destruct C2 as [[-> _] | (-> & _ & _)]; [lia|].
    pose proof (fexp_small (Zdigits2 m2 + e1)). lia. }
  destruct (shr_m mrs2); try discriminate.
  destruct (Z.leb_spec e2 (emax - prec)); [discriminate|].
  unfold emax, prec in *. lia.
Qed.

Lemma int_truediv_counts a b :
  0 <= a <= b -> 0 < b -> exists q, int_truediv a b = Ok q.
Proof.
  intros Ha Hb. unfold int_truediv.
  destruct (Z.eqb_spec b 0) as [->|_]; [lia|].
  destruct b as [|pb|pb]; try lia.
  destruct a as [|pa|pa]; try lia; cbn [int_operand SFdiv].
  - eexists. reflexivity.
  - destruct (SFdiv_core_binary prec emax (Zpos pa) 0 (Zpos pb) 0)
      as [[mz ez] lz] eqn:E.
    assert (S : ez <= 0 /\ 0 <= mz <= 2 ^ (- ez)).
    { unfold SFdiv_core_binary in E.
      set (e' := Z.min (fexp prec emax (Zdigits2 (Zpos pa) + 0
                                        - (Zdigits2 (Zpos pb) + 0)))
                       (0 - 0)) in *.
      assert (He' : e' <= 0) by (subst e'; lia).
      replace (0 - 0 - e') with (- e') in E by lia.
      assert (Hq : forall m', 0 <= m' <= Zpos pa * 2 ^ (- e') ->
                 0 <= m' / Zpos pb <= 2 ^ (- e')).
      { intros m' Hm'. split; [apply Z.div_pos; lia|].
        assert (0 < 2 ^ (- e')) by (apply Z.pow_pos_nonneg; lia).
        apply Z.div_le_upper_bound; [lia|]. nia. }
      assert (Hs : 0 <= match - e' with
                        | Z0 => Zpos pa
                        | Zpos _ => Z.shiftl (Zpos pa) (- e')
                        | Zneg _ => 0
                        end <= Zpos pa * 2 ^ (- e')).
      { destruct (- e') as [|s|s] eqn:Es; try lia.
        rewrite Z.shiftl_mul_pow2 by lia. lia. }
      specialize (Hq _ Hs).
      unfold Z.div in Hq.
      destruct (Z.div_eucl _ (Zpos pb)) as [q r'].
      inversion E; subst. cbn [fst] in Hq. auto. }
    destruct S as [S1 S2].
    pose proof (binary_round_aux_small false mz ez lz S1 S2) as NI.
    destruct (binary_round_aux prec emax (xorb false false) mz ez lz) eqn:R;
      try (eexists; reflexivity).
    exfalso. apply (NI s). exact R.
Qed.

Lemma percent_counts a b :
  0 <= a <= b -> 0 < b -> exists pct, percent a b = Ok pct.
Proof.
  intros Ha Hb. unfold percent.
  destruct (int_truediv_counts a b Ha Hb) as [q ->]. eexists. reflexivity.
Qed.

(** ** The report of a file *)

Lemma count_cons f l ls :
  count f (l :: ls) = (if f l then 1 else 0) + count f ls.
Proof.
  unfold count. cbn [filter]. destruct (f l); cbn [length]; lia.
Qed.

(** The loop adds, to each counter, the number of lines in the state
    counted, and appends the unchecked lines in their order. *)
Lemma scan_lines_closed lines : forall r k,
  scan_lines r (enumerate lines k)
  = mkReport (total r + count is_task lines)
             (done r + count (has_state Done) lines)
             (impl r + count (has_state InProgress) lines)
             (unchecked r ++ unchecked_entries (enumerate lines k)).
Proof.
  induction lines as [|l ls IH]; intros r k.
  - destruct r. cbn. rewrite app_nil_r. f_equal; unfold count; cbn; lia.
  - cbn [enumerate].
    change (scan_lines r ((k, l) :: enumerate ls (k + 1)))
      with (scan_lines (scan_line r (k, l)) (enumerate ls (k + 1))).
    rewrite IH, !count_cons.
    change (unchecked_entries ((k, l) :: enumerate ls (k + 1)))
      with (match pat_match l with
            | Some (_, g2) =>
                if has_state Unchecked l then [(k, strip g2)] else []
            | None => []
            end ++ unchecked_entries (enumerate ls (k + 1))).
    unfold scan_line, is_task, has_state, classify.
    destruct (pat_match l) as [[g1 g2]|].
    + destruct (str_eqb (lower g1) (str_of "x")).
      * cbn [total done impl unchecked app]. f_equal; lia.
      * destruct (str_eqb (lower g1) (str_of "~")).
        -- cbn [total done impl unchecked app]. f_equal; lia.
        -- cbn [total done impl unchecked]. rewrite <- app_assoc.
           f_equal; lia.
    + cbn [app]. f_equal; lia.
Qed.

Lemma scan_closed text :
  scan text
  = mkReport (count is_task (splitlines text))
             (count (has_state Done) (splitlines text))
             (count (has_state InProgress) (splitlines text))
             (unchecked_entries (enumerate (splitlines text) 1)).
Proof. unfold scan. now rewrite scan_lines_closed. Qed.

Lemma count_nonneg f lines : 0 <= count f lines.
Proof. unfold count. lia. Qed.

Lemma scan_well_formed text : well_formed (scan text).
Proof.
  unfold well_formed. repeat split.
  - rewrite scan_closed. apply count_nonneg.
  - rewrite scan_closed. apply count_nonneg.
  - unfold scan. apply scan_lines_counts. reflexivity.
Qed.

Lemma unchecked_entries_length lines : forall k,
  Z.of_nat (length (unchecked_entries (enumerate lines k)))
  = count (has_state Unchecked) lines.
Proof.
  induction lines as [|l ls IH]; intros k; [reflexivity|].
  rewrite count_cons, <- (IH (k + 1)).
  cbn [enumerate unchecked_entries flat_map].
  fold (unchecked_entries (enumerate ls (k + 1))).
  rewrite length_app.
  unfold has_state, classify.
  destruct (pat_match l) as [[g1 g2]|]; [|cbn [length]; lia].
  destruct (str_eqb (lower g1) (str_of "x")); [cbn [length]; lia|].
  destruct (str_eqb (lower g1) (str_of "~")); cbn [length]; lia.
Qed.

(** Every entry is one unchecked line, under the number of that line. *)
Lemma unchecked_entries_in lines : forall k ln txt,
  In (ln, txt) (unchecked_entries (enumerate lines k)) ->
  k <= ln < k + Z.of_nat (length lines)
  /\ exists line g1 g2,
       nth_error lines (Z.to_nat (ln - k)) = Some line
       /\ pat_match line = Some (g1, g2)
       /\ has_state Unchecked line = true
       /\ txt = strip g2.
Proof.
  induction lines as [|l ls IH]; intros k ln txt H; [destruct H|].
  cbn [enumerate unchecked_entries flat_map] in H.
  fold (unchecked_entries (enumerate ls (k + 1))) in H.
  apply in_app_or in H. destruct H as [H|H].
  - destruct (pat_match l) as [[g1 g2]|] eqn:E; [|destruct H].
    destruct (has_state Unchecked l) eqn:S; [|destruct H].
    destruct H as [H|[]]. inversion H; subst ln txt.
    split; [cbn [length]; lia|].
    exists l, g1, g2. replace (k - k) with 0 by lia. auto.
  - apply IH in H. destruct H as [Hk (line & g1 & g2 & Hn & Hrest)].
    split; [cbn [length]; lia|].
    exists line, g1, g2. split; [|exact Hrest].
    replace (Z.to_nat (ln - k)) with (S (Z.to_nat (ln - (k + 1)))) by lia.
    exact Hn.
Qed.

Lemma unchecked_entries_sorted lines : forall k,
  StronglySorted Z.lt (map fst (unchecked_entries (enumerate lines k))).
Proof.
  induction lines as [|l ls IH]; intros k; [constructor|].
  cbn [enumerate unchecked_entries flat_map].
  fold (unchecked_entries (enumerate ls (k + 1))).
  destruct (pat_match l) as [[g1 g2]|]; [|apply IH].
  destruct (has_state Unchecked l); [|apply IH].
  cbn [app map fst]. constructor; [apply IH|].
  apply Forall_forall. intros ln H. apply in_map_iff in H.
  destruct H as ([ln' txt] & <- & H). apply unchecked_entries_in in H.
  cbn [fst]. lia.
Qed.

(** C9: the unchecked entries of a report are the unchecked lines of the
    file in the order of the file, which is the ascending order of their
    line numbers counted from 1; the preview shows at most the first 120
    characters of a description; and the four counts are the numbers of
    lines in each state, whatever the length of the descriptions. *)
Theorem unchecked_in_line_order (text : str) :
  let lines := splitlines text in
  let r := scan text in
  unchecked r = unchecked_entries (enumerate lines 1)
  /\ StronglySorted Z.lt (map fst (unchecked r))
  /\ (forall ln txt, In (ln, txt) (unchecked r) ->
        1 <= ln <= Z.of_nat (length lines)
        /\ exists line g1 g2,
             nth_error lines (Z.to_nat (ln - 1)) = Some line
             /\ pat_match line = Some (g1, g2)
             /\ has_state Unchecked line = true
             /\ txt = strip g2)
  /\ (forall e, exists shown,
        preview_line e
        = str_of "  [ ] " ++ str_of_int (fst e) ++ str_of ": " ++ shown
        /\ shown = firstn 120 (snd e) /\ (length shown <= 120)%nat)
  /\ total r = count is_task lines
  /\ done r = count (has_state Done) lines
  /\ impl r = count (has_state InProgress) lines
  /\ Z.of_nat (length (unchecked r)) = count (has_state Unchecked) lines.
Proof.
  intros lines r. subst lines r. rewrite scan_closed.
  cbn [total done impl unchecked].
  split; [reflexivity|].
  split; [apply unchecked_entries_sorted|].
  split.
  { intros ln txt H. apply unchecked_entries_in in H.
    destruct H as [Hk H]. split; [lia|exact H]. }
  split.
  { intros [ln txt]. exists (firstn 120 txt).
    split; [reflexivity|]. split; [reflexivity|]. apply firstn_le_length. }
  repeat split. apply unchecked_entries_length.
Qed.

(** ** What is printed for a file *)

Lemma report_lines_empty path r :
  total r = 0 -> report_lines path r = Ok [no_tasks_line path].
Proof. intros H. unfold report_lines. now rewrite H. Qed.

Lemma report_lines_tasks path r :
  0 <= done r <= total r -> total r <> 0 ->
  exists q,
    int_truediv (done r) (total r) = Ok q
    /\ report_lines path r
       = Ok (summary_line path r (SFmul prec emax q float_100)
               :: map preview_line (firstn 5 (unchecked r))
               ++ (if Z.of_nat (length (unchecked r)) >? 5
                   then [overflow_line (Z.of_nat (length (unchecked r)) - 5)]
                   else [])).
Proof.
  intros Hd Ht. unfold report_lines, percent.
  destruct (Z.eqb_spec (total r) 0) as [E|_]; [contradiction|].
  destruct (int_truediv_counts (done r) (total r) Hd ltac:(lia)) as [q Hq].
  exists q. now rewrite Hq.
Qed.

Lemma text_of_str_of s : text_of (str_of s) = s.
Proof.
  unfold text_of, str_of. rewrite map_map.
  rewrite (map_ext _ (fun a => a)) by (intros a; apply ascii_N_embedding).
  rewrite map_id. apply string_of_list_ascii_of_string.
Qed.

(** The decimal text of an integer reads back as that integer. *)
Lemma str_of_int_read_back n : int_of_str (str_of_int n) = Some n.
Proof.
  unfold int_of_str, str_of_int. rewrite text_of_str_of.
  rewrite NilZero.isi.
  - cbn. now rewrite DecimalZ.of_to.
  - destruct n as [|q|q]; cbn; try discriminate.
    intros H. inversion H as [H']. now apply DecimalPos.Unsigned.to_uint_nonnil in H'.
  - destruct n as [|q|q]; cbn; try discriminate.
    intros H. inversion H as [H']. now apply DecimalPos.Unsigned.to_uint_nonnil in H'.
Qed.

(** The rounding of the format [.0f]. *)
Lemma nearest_even_spec m e : nearest_integer m e (nearest_even m e).
Proof.
  unfold nearest_integer, nearest_even. destruct e as [|k|k].
  - reflexivity.
  - reflexivity.
  - cbn [Z.leb Z.compare Z.opp].
    assert (Hd : 0 < 2 ^ Zpos k) by (apply Z.pow_pos_nonneg; lia).
    pose proof (Z.div_mod (Zpos m) (2 ^ Zpos k) ltac:(lia)) as E.
    pose proof (Z.mod_pos_bound (Zpos m) (2 ^ Zpos k) Hd) as B.
    set (d := 2 ^ Zpos k) in *. set (q := Zpos m / d) in *.
    set (r := Zpos m mod d) in *.
    destruct (Z.compare_spec (2 * r) d) as [C|C|C].
    + destruct (Z.even q) eqn:Ev.
      * split; [nia|auto].
      * split; [nia|]. intros _.
        rewrite Z.even_add, Ev. reflexivity.
    + split; [nia|nia].
    + split; [nia|nia].
Qed.

(** C5: a report without tasks prints the one line saying so; any other
    report prints a summary line, spelled out here, whose percentage is the
    float [done / total * 100.0] in the format [.0f], which rounds to the
    nearest integer; the division is defined since the total is not zero;
    1 of 3 prints as 33% and 2 of 3 as 67%. *)
Theorem report_percentage (path : str) (r : report) :
  0 <= done r <= total r ->
  (total r = 0 ->
   report_lines path r = Ok [path ++ str_of " :: no task checkboxes"])
  /\ (total r <> 0 ->
      exists q more,
        int_truediv (done r) (total r) = Ok q
        /\ q = SFdiv prec emax (int_operand (done r)) (int_operand (total r))
        /\ report_lines path r
           = Ok ((path ++ str_of " :: " ++ str_of_int (done r)
                       ++ str_of "x + " ++ str_of_int (impl r)
                       ++ str_of "~ / " ++ str_of_int (total r)
                       ++ str_of " total = "
                       ++ format_0f (SFmul prec emax q float_100)
                       ++ str_of "% tested")
                   :: more))
  /\ (done r = 1 -> total r = 3 ->
      exists more,
        report_lines path r
        = Ok ((path ++ str_of " :: 1x + " ++ str_of_int (impl r)
                    ++ str_of "~ / 3 total = 33% tested")
                :: more))
  /\ (done r = 2 -> total r = 3 ->
      exists more,
        report_lines path r
        = Ok ((path ++ str_of " :: 2x + " ++ str_of_int (impl r)
                    ++ str_of "~ / 3 total = 67% tested")
                :: more))
  /\ (forall m e,
      exists n,
        format_0f (S754_finite false m e) = str_of_int n
        /\ nearest_integer m e n
        /\ int_of_str (str_of_int n) = Some n)
  /\ (forall n, int_of_str (str_of_int n) = Some n).
Proof.
  intros Hd. split; [apply report_lines_empty|].
  split; [|split; [|split; [|split]]].
  - intros Ht. destruct (report_lines_tasks path r Hd Ht) as (q & Hq & Hr).
    exists q. eexists. split; [exact Hq|]. split; [|exact Hr].
    unfold int_truediv in Hq.
    destruct (total r =? 0); [discriminate|].
    destruct (SFdiv prec emax (int_operand (done r)) (int_operand (total r)));
      congruence.
  - intros H1 H3. unfold report_lines, percent, summary_line.
    rewrite H1, H3. eexists. reflexivity.
  - intros H2 H3. unfold report_lines, percent, summary_line.
    rewrite H2, H3. eexists. reflexivity.
  - intros m e. exists (nearest_even m e).
    split; [reflexivity|]. split; [apply nearest_even_spec|].
    apply str_of_int_read_back.
  - apply str_of_int_read_back.
Qed.

Lemma report_percentage_witness :
  let path := str_of "docs/plans/a.md" in
  let r := mkReport 3 1 1 [(2, str_of "b")] in
  0 <= done r <= total r
  /\ exists more,
       report_lines path r
       = Ok ((path ++ str_of " :: 1x + " ++ str_of_int (impl r)
                   ++ str_of "~ / 3 total = 33% tested")
               :: more).
Proof.
  intros path r.
  assert (H : 0 <= done r <= total r) by (cbn; lia).
  exact (conj H
           (proj1 (proj2 (proj2 (report_percentage path r H)))
              eq_refl eq_refl)).
Defined.

(** The report of the example of the specification. *)
Example report_lines_example :
  report_lines (str_of "docs/plans/a.md") (mkReport 3 1 1 [(2, str_of "b")])
  = Ok [str_of "docs/plans/a.md :: 1x + 1~ / 3 total = 33% tested";
        str_of "  [ ] 2: b"].
Proof. reflexivity. Qed.

(** C6: after its first line a report shows the first five unchecked
    entries at most, one line each with the number of the line and the
    description, and then one more line exactly when there are more than
    five entries; that line tells how many entries beyond five there are.
    Six entries give five previews and the line for 1 more. *)
Theorem preview_at_most_five (path : str) (r : report) :
  well_formed r ->
  exists first previews over,
    report_lines path r = Ok (first :: previews ++ over)
    /\ previews
       = map (fun e : Z * str =>
                str_of "  [ ] " ++ str_of_int (fst e) ++ str_of ": "
                  ++ firstn 120 (snd e))
             (firstn 5 (unchecked r))
    /\ length previews = Nat.min 5 (length (unchecked r))
    /\ (length previews <= 5)%nat
    /\ ((5 < length (unchecked r))%nat ->
        over = [str_of "  ... "
                  ++ str_of_int (Z.of_nat (length (unchecked r)) - 5)
                  ++ str_of " more unchecked"]
        /\ int_of_str (str_of_int (Z.of_nat (length (unchecked r)) - 5))
           = Some (Z.of_nat (length (unchecked r) - 5)))
    /\ ((length (unchecked r) <= 5)%nat -> over = [])
    /\ (length (unchecked r) = 6%nat ->
        length previews = 5%nat
        /\ over = [str_of "  ... 1 more unchecked"]).
Proof.
  intros (Hd & Hi & Hc). unfold counts_agree in Hc.
  assert (P : map preview_line (firstn 5 (unchecked r))
              = map (fun e : Z * str =>
                       str_of "  [ ] " ++ str_of_int (fst e) ++ str_of ": "
                         ++ firstn 120 (snd e))
                    (firstn 5 (unchecked r)))
    by (apply map_ext; intros [ln txt]; reflexivity).
  assert (L : length (map preview_line (firstn 5 (unchecked r)))
              = Nat.min 5 (length (unchecked r)))
    by (now rewrite length_map, length_firstn).
  destruct (Z.eq_dec (total r) 0) as [Ht|Ht].
  - assert (E : unchecked r = [])
      by (destruct (unchecked r); [reflexivity|cbn [length] in Hc; lia]).
    exists (no_tasks_line path), [], [].
    rewrite report_lines_empty by assumption. rewrite E. cbn.
    repeat split; try lia; try discriminate.
  - destruct (report_lines_tasks path r ltac:(lia) Ht) as (q & _ & Hr).
    rewrite Hr. clear Hr.
    eexists _, _, _. split; [reflexivity|]. split; [exact P|].
    split; [exact L|]. split; [rewrite L; lia|].
    rewrite Z.gtb_ltb.
    destruct (Z.ltb_spec 5 (Z.of_nat (length (unchecked r)))) as [G|G].
    + split; [intros _; split; [reflexivity|]|split; [lia|]].
      * rewrite str_of_int_read_back. f_equal. lia.
      * intros H6. split; [rewrite L, H6; reflexivity|].
        rewrite H6. reflexivity.
    + split; [lia|]. split; [reflexivity|lia].
Qed.

Lemma preview_at_most_five_witness :
  let path := str_of "docs/plans/a.md" in
  let r := mkReport 9 1 0
             (map (fun i => (i, str_of "todo")) [1; 2; 3; 5; 8; 9; 11; 12])
  in
  well_formed r
  /\ exists first previews over,
       report_lines path r = Ok (first :: previews ++ over)
       /\ previews
          = map (fun e : Z * str =>
                   str_of "  [ ] " ++ str_of_int (fst e) ++ str_of ": "
                     ++ firstn 120 (snd e))
                (firstn 5 (unchecked r))
       /\ length previews = Nat.min 5 (length (unchecked r))
       /\ (length previews <= 5)%nat
       /\ ((5 < length (unchecked r))%nat ->
           over = [str_of "  ... "
                     ++ str_of_int (Z.of_nat (length (unchecked r)) - 5)
                     ++ str_of " more unchecked"]
           /\ int_of_str (str_of_int (Z.of_nat (length (unchecked r)) - 5))
              = Some (Z.of_nat (length (unchecked r) - 5)))
       /\ ((length (unchecked r) <= 5)%nat -> over = [])
       /\ (length (unchecked r) = 6%nat ->
           length previews = 5%nat
           /\ over = [str_of "  ... 1 more unchecked"]).
Proof.
  intros path r.
  assert (H : well_formed r)
    by (unfold well_formed, counts_agree; cbn; lia).
  exact (conj H (preview_at_most_five path r H)).
Defined.

(** Eight unchecked entries, as they are printed. *)
Example eight_unchecked_example :
  report_lines (str_of "docs/plans/a.md")
    (mkReport 9 1 0
       (map (fun i => (i, str_of "todo")) [1; 2; 3; 5; 8; 9; 11; 12]))
  = Ok [str_of "docs/plans/a.md :: 1x + 0~ / 9 total = 11% tested";
        str_of "  [ ] 1: todo"; str_of "  [ ] 2: todo";
        str_of "  [ ] 3: todo"; str_of "  [ ] 5: todo";
        str_of "  [ ] 8: todo"; str_of "  ... 3 more unchecked"].
Proof. reflexivity. Qed.

(** Six unchecked entries, as they are printed. *)
Example six_unchecked_example :
  report_lines (str_of "docs/plans/a.md")
    (mkReport 7 1 0 (map (fun i => (i, str_of "todo")) [1; 2; 3; 5; 8; 9]))
  = Ok [str_of "docs/plans/a.md :: 1x + 0~ / 7 total = 14% tested";
        str_of "  [ ] 1: todo"; str_of "  [ ] 2: todo";
        str_of "  [ ] 3: todo"; str_of "  [ ] 5: todo";
        str_of "  [ ] 8: todo"; str_of "  ... 1 more unchecked"].
Proof. reflexivity. Qed.

(** ** The order on text *)

Lemma str_eqb_eq a : forall b, str_eqb a b = true <-> a = b.
Proof.
  induction a as [|x a IH]; intros [|y b]; cbn; split;
    try discriminate; try reflexivity.
  - intros H. apply andb_prop in H. destruct H as [H1 H2].
    apply N.eqb_eq in H1. apply IH in H2. congruence.
  - intros H. inversion H; subst. rewrite N.eqb_refl. now apply IH.
Qed.

Lemma str_eqb_refl a : str_eqb a a = true.
Proof. now apply str_eqb_eq. Qed.

Lemma str_ltb_irrefl a : str_ltb a a = false.
Proof.
  induction a as [|x a IH]; cbn; auto.
  now rewrite N.ltb_irrefl, N.eqb_refl, IH.
Qed.

Lemma str_ltb_trans a : forall b c,
  str_ltb a b = true -> str_ltb b c = true -> str_ltb a c = true.
Proof.
  induction a as [|x a IH]; intros [|y b] [|z c]; cbn; try discriminate; auto.
  intros H1 H2.
  apply orb_true_iff in H1. apply orb_true_iff in H2. apply orb_true_iff.
  destruct H1 as [H1|H1], H2 as [H2|H2];
    rewrite ?andb_true_iff, ?N.ltb_lt, ?N.eqb_eq in *.
  - left. lia.
  - left. destruct H2 as [-> _]. exact H1.
  - left. destruct H1 as [-> _]. exact H2.
  - right. destruct H1 as [-> H1], H2 as [-> H2]. split; eauto.
Qed.

Lemma str_ltb_total a : forall b,
  str_ltb a b = false -> str_ltb b a = false -> a = b.
Proof.
  induction a as [|x a IH]; intros [|y b]; cbn; try discriminate; auto.
  intros H1 H2.
  apply orb_false_iff in H1. apply orb_false_iff in H2.
  destruct H1 as [H1 H1'], H2 as [H2 H2'].
  apply N.ltb_ge in H1. apply N.ltb_ge in H2.
  assert (x = y) by lia. subst y. rewrite N.eqb_refl in *. cbn in *.
  f_equal. now apply IH.
Qed.

(** ** Sorting *)

Section SortedFacts.
Context {A : Type} (key : A -> str).

Lemma key_le_trans x y z :
  key_le key x y -> key_le key y z -> key_le key x z.
Proof.
  unfold key_le. intros H1 H2.
  destruct (str_ltb (key z) (key x)) eqn:E; auto.
  destruct (str_ltb (key x) (key y)) eqn:E1.
  - rewrite (str_ltb_trans _ _ _ E E1) in H2. discriminate.
  - rewrite (str_ltb_total _ _ E1 H1) in E. congruence.
Qed.

Lemma insert_sorted_perm x l : Permutation (x :: l) (insert_sorted key x l).
Proof.
  induction l as [|y l IH]; cbn; auto.
  destruct (str_ltb (key y) (key x)); auto.
  rewrite perm_swap. now constructor.
Qed.

Lemma sorted_perm l : Permutation l (sorted key l).
Proof.
  induction l as [|x l IH]; cbn; auto.
  rewrite <- insert_sorted_perm. now constructor.
Qed.

Lemma insert_sorted_ordered x l :
  StronglySorted (key_le key) l ->
  StronglySorted (key_le key) (insert_sorted key x l).
Proof.
  induction l as [|y l IH]; intros H; cbn.
  - repeat constructor.
  - inversion H as [|? ? Hl Hy]; subst.
    destruct (str_ltb (key y) (key x)) eqn:E.
    + constructor; [now apply IH|].
      rewrite <- insert_sorted_perm. constructor; auto.
      unfold key_le. destruct (str_ltb (key x) (key y)) eqn:E'; auto.
      pose proof (str_ltb_trans _ _ _ E E') as T.
      rewrite str_ltb_irrefl in T. discriminate.
    + constructor; auto. constructor; auto.
      eapply Forall_impl; [|exact Hy].
      intros z Hz. eapply key_le_trans; eauto.
Qed.

Lemma sorted_ordered l : StronglySorted (key_le key) (sorted key l).
Proof.
  induction l as [|x l IH]; cbn; [constructor|].
  now apply insert_sorted_ordered.
Qed.

(** With distinct keys the order is strict. *)
Lemma sorted_strict l :
  NoDup (map key l) ->
  StronglySorted (fun x y => str_ltb (key x) (key y) = true) (sorted key l).
Proof.
  intros ND.
  assert (ND' : NoDup (map key (sorted key l)))
    by (eapply Permutation_NoDup; [apply Permutation_map, sorted_perm|auto]).
  pose proof (sorted_ordered l) as S.
  induction S as [|x s S IH F]; [constructor|].
  cbn in ND'. inversion ND' as [|? ? Hx ND'']; subst.
  constructor; [now apply IH|].
  apply Forall_forall. intros y Hy.
  rewrite Forall_forall in F. specialize (F y Hy). unfold key_le in F.
  destruct (str_ltb (key x) (key y)) eqn:E; auto.
  exfalso. apply Hx. rewrite (str_ltb_total _ _ E F).
  now apply in_map.
Qed.

End SortedFacts.

(** ** The file tree *)

Lemma walk_dir here es : walk here (Dir es) = walk_entries here es.
Proof.
  unfold walk_entries. cbn [walk].
  induction es as [|[nm x] es IH]; cbn [flat_map fst snd]; [reflexivity|].
  now rewrite IH, app_assoc.
Qed.

Lemma wf_fs_dir es :
  wf_fs (Dir es) = true <->
  forallb name_ok (map fst es) = true
  /\ distinct (map fst es) = true
  /\ Forall (fun e => wf_fs (snd e) = true) es.
Proof.
  cbn [wf_fs]. rewrite !andb_true_iff.
  assert (H : (fix all (es : list (str * node)) : bool :=
                 match es with
                 | [] => true
                 | (_, x) :: es' => wf_fs x && all es'
                 end) es = true
              <-> Forall (fun e => wf_fs (snd e) = true) es).
  { induction es as [|[nm x] es IH].
    - split; constructor.
    - rewrite andb_true_iff, IH. split.
      + intros [H1 H2]. now constructor.
      + intros H. inversion H; subst. auto. }
  rewrite H. tauto.
Qed.

Lemma entry_in c es x : entry c es = Some x -> In (c, x) es.
Proof.
  induction es as [|[nm y] es IH]; cbn; [discriminate|].
  destruct (str_eqb nm c) eqn:E.
  - intros H. inversion H; subst. apply str_eqb_eq in E. subst. now left.
  - intros H. right. now apply IH.
Qed.

Lemma lookup_app fs a : forall b,
  lookup fs (a ++ b)
  = match lookup fs a with
    | Some x => lookup x b
    | None => None
    end.
Proof.
  revert fs. induction a as [|c a IH]; intros fs b; cbn; [reflexivity|].
  destruct fs as [t|es]; [reflexivity|].
  destruct (entry c es); [apply IH|reflexivity].
Qed.

Lemma lookup_wf p : forall fs x,
  wf_fs fs = true -> lookup fs p = Some x ->
  wf_fs x = true /\ forallb name_ok p = true.
Proof.
  induction p as [|c p IH]; intros fs x W H; cbn in H.
  - inversion H; subst. auto.
  - destruct fs as [t|es]; [discriminate|].
    destruct (entry c es) as [y|] eqn:E; [|discriminate].
    apply entry_in in E. apply wf_fs_dir in W. destruct W as (N & _ & W).
    rewrite Forall_forall in W. specialize (W _ E). cbn [snd] in W.
    destruct (IH y x W H) as [Wx Np]. split; [exact Wx|].
    cbn [forallb]. rewrite Np, andb_true_r.
    rewrite forallb_forall in N. apply N.
    change c with (fst (c, y)). now apply in_map.
Qed.

(** What [walk] lists lies below the directory and matches the glob. *)
Lemma walk_sound n : forall here p,
  In p (walk here n) ->
  exists rel, p = here ++ rel /\ rel <> [] /\ glob_md (name p) = true.
Proof.
  induction n as [t|es IH] using node_ind; intros here p H; [destruct H|].
  rewrite walk_dir in H. unfold walk_entries in H.
  apply in_flat_map in H. destruct H as ([nm x] & He & H).
  cbn [fst snd] in H. apply in_app_or in H. destruct H as [H|H].
  - destruct (glob_md nm) eqn:G; [|destruct H].
    destruct H as [<-|[]]. exists [nm]. repeat split; [discriminate|].
    unfold name. now rewrite last_last.
  - rewrite Forall_forall in IH. apply (IH _ He) in H.
    destruct H as (rel & -> & _ & G).
    exists (nm :: rel). rewrite <- app_assoc in *. cbn [app] in *.
    repeat split; [discriminate|exact G].
Qed.

(** Every entry below the directory that matches the glob is listed. *)
Lemma walk_complete rel : forall n here x,
  lookup n rel = Some x -> rel <> [] ->
  glob_md (name (here ++ rel)) = true -> In (here ++ rel) (walk here n).
Proof.
  induction rel as [|c rel IH]; intros n here x H Hne G; [congruence|].
  cbn [lookup] in H. destruct n as [t|es]; [discriminate|].
  destruct (entry c es) as [y|] eqn:E; [|discriminate].
  apply entry_in in E. rewrite walk_dir. unfold walk_entries.
  apply in_flat_map. exists (c, y). split; [exact E|]. cbn [fst snd].
  apply in_or_app. destruct rel as [|d rel].
  - left. unfold name in G. rewrite last_last in G. rewrite G. now left.
  - right. replace (here ++ c :: d :: rel) with ((here ++ [c]) ++ d :: rel)
      in * by (now rewrite <- app_assoc).
    eapply IH; eauto. discriminate.
Qed.

Lemma distinct_cons x l :
  distinct (x :: l) = true -> ~ In x l /\ distinct l = true.
Proof.
  cbn. intros H. apply andb_prop in H. destruct H as [H1 H2].
  split; [|exact H2]. intros Hin.
  apply negb_true_iff in H1.
  assert (T : existsb (str_eqb x) l = true)
    by (apply existsb_exists; exists x; split; [exact Hin|apply str_eqb_refl]).
  congruence.
Qed.

Lemma app_inv_first {A : Type} (a : list A) x y s t :
  a ++ x :: s = a ++ y :: t -> x = y.
Proof. intros H. apply app_inv_head in H. now inversion H. Qed.

(** Distinct names make the listed paths distinct. *)
Lemma walk_nodup n : forall here, wf_fs n = true -> NoDup (walk here n).
Proof.
  induction n as [t|es IH] using node_ind; intros here W; [constructor|].
  rewrite walk_dir. apply wf_fs_dir in W. destruct W as (_ & D & W).
  unfold walk_entries.
  induction es as [|[nm x] es IHes]; cbn [flat_map fst snd]; [constructor|].
  inversion IH as [|? ? IHx IHrest]; subst.
  inversion W as [|? ? Wx Wrest]; subst. cbn [snd] in *.
  cbn [map fst] in D. apply distinct_cons in D. destruct D as [Dnm D].
  apply NoDup_app; [apply NoDup_app| |].
  - destruct (glob_md nm); repeat constructor. intros [].
  - now apply IHx.
  - intros p Hp Hq. destruct (glob_md nm); [|destruct Hp].
    destruct Hp as [<-|[]]. apply walk_sound in Hq.
    destruct Hq as (rel & E & Hne & _).
    rewrite <- (app_nil_r (here ++ [nm])) in E at 1.
    apply app_inv_head in E. congruence.
  - now apply IHes.
  - intros p Hp Hq. apply in_flat_map in Hq.
    destruct Hq as ([nm' x'] & He & Hq). cbn [fst snd] in Hq.
    assert (P1 : exists r, p = here ++ nm :: r).
    { apply in_app_or in Hp. destruct Hp as [Hp|Hp].
      - destruct (glob_md nm); [|destruct Hp].
        destruct Hp as [<-|[]]. now exists [].
      - apply walk_sound in Hp. destruct Hp as (rel & -> & _).
        exists rel. now rewrite <- app_assoc. }
    assert (P2 : exists r, p = here ++ nm' :: r).
    { apply in_app_or in Hq. destruct Hq as [Hq|Hq].
      - destruct (glob_md nm'); [|destruct Hq].
        destruct Hq as [<-|[]]. now exists [].
      - apply walk_sound in Hq. destruct Hq as (rel & -> & _).
        exists rel. now rewrite <- app_assoc. }
    destruct P1 as [r1 E1], P2 as [r2 E2]. rewrite E1 in E2.
    apply app_inv_first in E2. subst nm'.
    apply Dnm. change nm with (fst (nm, x')). now apply in_map.
Qed.

(** ** Paths as text *)

Lemma name_ok_spec nm : name_ok nm = true <-> ~ In SLASH nm.
Proof.
  unfold name_ok. rewrite negb_true_iff. split.
  - intros H Hin.
    assert (T : existsb (N.eqb SLASH) nm = true)
      by (apply existsb_exists; exists SLASH; split;
          [exact Hin|apply N.eqb_refl]).
    congruence.
  - intros H. destruct (existsb (N.eqb SLASH) nm) eqn:E; [|reflexivity].
    apply existsb_exists in E. destruct E as (c & Hin & Hc).
    apply N.eqb_eq in Hc. subst c. contradiction.
Qed.

Lemma as_posix_cons c d p :
  as_posix (c :: d :: p) = c ++ SLASH :: as_posix (d :: p).
Proof. reflexivity. Qed.

Lemma split_at_slash a : forall b s t,
  ~ In SLASH a -> ~ In SLASH b ->
  a ++ SLASH :: s = b ++ SLASH :: t -> a = b /\ s = t.
Proof.
  induction a as [|x a IH]; intros [|y b] s t Ha Hb E; cbn in *.
  - inversion E. auto.
  - inversion E; subst. tauto.
  - inversion E; subst. tauto.
  - inversion E; subst. destruct (IH b s t) as [-> ->]; auto.
Qed.

(** The text of a path gives its components back. *)
Lemma as_posix_inj p : forall q,
  p <> [] -> q <> [] ->
  forallb name_ok p = true -> forallb name_ok q = true ->
  as_posix p = as_posix q -> p = q.
Proof.
  induction p as [|c p IH]; intros [|d q] Hp Hq Np Nq E; try congruence.
  cbn [forallb] in Np, Nq.
  apply andb_prop in Np. destruct Np as [Nc Np].
  apply andb_prop in Nq. destruct Nq as [Nd Nq].
  apply name_ok_spec in Nc. apply name_ok_spec in Nd.
  destruct p as [|c' p], q as [|d' q].
  - cbn in E. congruence.
  - rewrite as_posix_cons in E. change (as_posix [c]) with c in E.
    exfalso. apply Nc. rewrite E. apply in_or_app. right. now left.
  - rewrite as_posix_cons in E. change (as_posix [d]) with d in E.
    exfalso. apply Nd. rewrite <- E. apply in_or_app. right. now left.
  - rewrite !as_posix_cons in E.
    apply split_at_slash in E; auto. destruct E as [-> E].
    f_equal. apply IH; auto; discriminate.
Qed.

Lemma ends_with_spec suffix s :
  ends_with suffix s = true <-> exists stem, s = stem ++ suffix.
Proof.
  induction s as [|c s IH]; cbn [ends_with]; rewrite orb_true_iff.
  - split.
    + intros [H|H]; [|discriminate]. apply str_eqb_eq in H.
      exists []. now subst.
    + intros [stem H]. left. apply str_eqb_eq.
      symmetry in H. apply app_eq_nil in H. now destruct H.
  - rewrite IH, str_eqb_eq. split.
    + intros [H|[stem H]].
      * exists []. now subst.
      * exists (c :: stem). now subst.
    + intros [[|x stem] H].
      * left. exact H.
      * right. inversion H; subst. now exists stem.
Qed.

(** ** Discovery *)

Lemma files_in fs p :
  In p (files fs) <->
  (exists rel, p = root ++ rel /\ rel <> [])
  /\ is_file fs p = true
  /\ glob_md (name p) = true
  /\ lower (name p) <> str_of "readme.md".
Proof.
  unfold files. rewrite filter_In, andb_true_iff, negb_true_iff.
  assert (R : str_eqb (lower (name p)) (str_of "readme.md") = false
              <-> lower (name p) <> str_of "readme.md").
  { rewrite <- str_eqb_eq.
    destruct (str_eqb (lower (name p)) (str_of "readme.md"));
      split; congruence. }
  rewrite R. clear R. unfold rglob_md. split.
  - intros (H & F & N).
    destruct (lookup fs root) as [[t|es]|]; try destruct H.
    apply walk_sound in H. destruct H as (rel & -> & Hne & G).
    repeat split; auto. now exists rel.
  - intros ((rel & -> & Hne) & F & G & N).
    split; [|auto]. unfold is_file in F. rewrite lookup_app in F.
    destruct (lookup fs root) as [[t|es]|]; try discriminate.
    + destruct rel; [congruence|discriminate].
    + destruct (lookup (Dir es) rel) as [x|] eqn:L; [|discriminate].
      eapply walk_complete; eauto.
Qed.

Lemma files_nodup fs : wf_fs fs = true -> NoDup (map as_posix (files fs)).
Proof.
  intros W.
  assert (ND : NoDup (files fs)).
  { unfold files, rglob_md. apply NoDup_filter.
    destruct (lookup fs root) as [[t|es]|] eqn:L; try constructor.
    apply walk_nodup. eapply lookup_wf; eauto. }
  assert (OK : forall p, In p (files fs) ->
                 p <> [] /\ forallb name_ok p = true).
  { intros p H. apply files_in in H.
    destruct H as ((rel & -> & _) & F & _). split; [discriminate|].
    unfold is_file in F.
    destruct (lookup fs (root ++ rel)) as [x|] eqn:L; [|discriminate].
    eapply lookup_wf; eauto. }
  induction ND as [|p l Hp ND IH]; cbn [map]; constructor.
  - intros H. apply in_map_iff in H. destruct H as (q & E & Hq).
    destruct (OK p (or_introl eq_refl)) as [P1 P2].
    destruct (OK q (or_intror Hq)) as [Q1 Q2].
    apply as_posix_inj in E; auto. congruence.
  - apply IH. intros q Hq. apply OK. now right.
Qed.

Lemma case_pair_lower x y : case_pair x y <-> lower_char x = lower_char y.
Proof.
  unfold case_pair, lower_char. split; intros H.
  - destruct H as [->|[[H ->]|[H ->]]]; auto;
      repeat (char_case; try (exfalso; lia); cbn [andb orb negb] in *);
      lia.
  - repeat (char_case; try (exfalso; lia); cbn [andb orb negb] in * );
      lia.
Qed.

Lemma lower_eq_iff a : forall b,
  lower a = lower b <-> same_ignoring_case a b.
Proof.
  unfold same_ignoring_case, lower.
  induction a as [|x a IH]; intros [|y b]; cbn [map]; split; intros H;
    try discriminate; try constructor; try (now inversion H).
  - apply case_pair_lower. now inversion H.
  - apply IH. now inversion H.
  - inversion H as [|? ? ? ? Hxy Hab]; subst.
    apply case_pair_lower in Hxy. apply IH in Hab. congruence.
Qed.

(** The comparison of the lowered name with ["readme.md"] holds for the
    names that are README.md in some case, and for no other. *)
Lemma is_readme_lower nm :
  lower nm = str_of "readme.md" <-> is_readme nm.
Proof.
  unfold is_readme. rewrite <- lower_eq_iff. reflexivity.
Qed.

Lemma files_found fs p : In p (files fs) <-> found_file fs p.
Proof.
  rewrite files_in. unfold found_file, glob_md, is_file.
  rewrite ends_with_spec, is_readme_lower. split.
  - intros (H1 & H2 & H3 & H4). repeat split; auto.
    destruct (lookup fs p) as [[t|es]|]; try discriminate. now exists t.
  - intros (H1 & [t H2] & H3 & H4). repeat split; auto. now rewrite H2.
Qed.

(** C4, amended: the files found are the regular files below [docs/plans],
    at any depth, whose name ends with [.md], the name [.md] included, and
    is not README.md in any case; they come sorted by the text of their
    path, each path before any that is greater. *)
Theorem discovery_sorted_md_files (fs : node) :
  wf_fs fs = true ->
  let found := sorted as_posix (files fs) in
  (forall p, In p found <-> found_file fs p)
  /\ StronglySorted path_lt found.
Proof.
  intros W found. split.
  - intros p. unfold found.
    assert (P : In p (sorted as_posix (files fs)) <-> In p (files fs)).
    { split; apply Permutation_in;
        [symmetry|]; apply sorted_perm. }
    rewrite P. apply files_found.
  - apply sorted_strict, files_nodup, W.
Qed.

Lemma discovery_sorted_md_files_witness :
  wf_fs sample_fs = true
  /\ (forall p, In p (sorted as_posix (files sample_fs))
                <-> found_file sample_fs p)
  /\ StronglySorted path_lt (sorted as_posix (files sample_fs)).
Proof.
  exact (conj eq_refl (discovery_sorted_md_files sample_fs eq_refl)).
Defined.

(** C4 as the specification has it fails on a file named [.md]: it is
    found, and it has no extension. *)
Lemma dot_md_is_found :
  sorted as_posix (files dotfile_fs)
  = [[str_of "docs"; str_of "plans"; str_of ".md"]]
  /\ ~ (forall p, In p (sorted as_posix (files dotfile_fs))
                  <-> spec_file dotfile_fs p).
Proof.
  split; [reflexivity|]. intros H.
  destruct (H [str_of "docs"; str_of "plans"; str_of ".md"]) as [H1 _].
  destruct (H1 (or_introl eq_refl)) as (_ & _ & (stem & Hne & E) & _).
  apply (f_equal (@length char)) in E. rewrite length_app in E.
  destruct stem; [congruence|]. cbn in E. lia.
Qed.

(** Names in other cases, and in other letters. *)
Example is_readme_example :
  is_readme (str_of "ReadMe.MD") /\ ~ is_readme (str_of "README.mdx")
  /\ ~ is_readme (str_of "READYOU.md").
Proof.
  rewrite <- !is_readme_lower. repeat split; discriminate.
Qed.

(** What is found in the small tree. *)
Example discovery_example :
  sorted as_posix (files sample_fs)
  = [[str_of "docs"; str_of "plans"; str_of "a"; str_of "z.md"];
     [str_of "docs"; str_of "plans"; str_of "b.md"]].
Proof. reflexivity. Qed.

(** ** The whole run *)

Lemma audit_returns_zero fs ps code :
  snd (audit fs ps) = Ok code -> code = 0.
Proof.
  induction ps as [|p ps IH]; cbn [audit].
  - cbn. congruence.
  - destruct (read_text fs p); [|discriminate].
    destruct (report_lines (as_posix p) (scan a)); [|discriminate].
    destruct (audit fs ps) as [out res]. exact IH.
Qed.

Lemma no_plan_no_files fs :
  (forall p, ~ is_plan fs p) -> files fs = [].
Proof.
  intros H. destruct (files fs) as [|p l] eqn:E; [reflexivity|].
  exfalso. apply (H p). unfold is_plan.
  assert (Hin : In p (files fs)) by (rewrite E; now left).
  apply files_in in Hin. unfold glob_md in Hin.
  now rewrite ends_with_spec in Hin.
Qed.

Lemma report_lines_scan path text :
  exists ls, report_lines path (scan text) = Ok ls.
Proof.
  destruct (scan_well_formed text) as (Hd & Hi & Hc).
  unfold counts_agree in Hc.
  destruct (Z.eq_dec (total (scan text)) 0) as [Ht|Ht].
  - eexists. now apply report_lines_empty.
  - destruct (report_lines_tasks path (scan text) ltac:(lia) Ht)
      as (q & _ & Hr).
    eexists. exact Hr.
Qed.

(** Reading is all that can fail. *)
Lemma audit_readable fs ps :
  (forall p, In p ps -> exists text, read_text fs p = Ok text) ->
  snd (audit fs ps) = Ok 0.
Proof.
  induction ps as [|p ps IH]; intros H; cbn [audit]; [reflexivity|].
  destruct (H p (or_introl eq_refl)) as [text ->].
  destruct (report_lines_scan (as_posix p) text) as [ls ->].
  specialize (IH (fun q Hq => H q (or_intror Hq))).
  destruct (audit fs ps) as [out res]. exact IH.
Qed.

(** C8: without the root directory, and without a file to report on,
    discovery finds nothing and raises nothing, nothing is printed and the
    exit status is 0; [main] returns when every file found can be read, and
    whenever it returns, whatever the files held, the exit status is 0. *)
Theorem empty_discovery_exit_zero (fs : node) :
  (lookup fs root = None \/ (forall p, ~ is_plan fs p) ->
     sorted as_posix (files fs) = []
     /\ main fs = ([], Ok 0)
     /\ exit_status (snd (main fs)) = 0)
  /\ ((forall p, In p (files fs) -> exists text, read_text fs p = Ok text) ->
     snd (main fs) = Ok 0)
  /\ (forall code, snd (main fs) = Ok code ->
       code = 0 /\ exit_status (snd (main fs)) = 0).
Proof.
  split; [|split].
  - intros H.
    assert (E : files fs = []).
    { destruct H as [H|H]; [|now apply no_plan_no_files].
      unfold files, rglob_md. now rewrite H. }
    unfold main. rewrite E. auto.
  - intros H. apply audit_readable. intros p Hp. apply H.
    eapply Permutation_in; [symmetry; apply sorted_perm|exact Hp].
  - intros code H. pose proof H as H'. apply audit_returns_zero in H'.
    rewrite H. subst code. auto.
Qed.

(** A directory without [docs], and one whose only file is a README. *)
Example missing_root_example : main (Dir []) = ([], Ok 0).
Proof. reflexivity. Qed.

Example readme_only_example :
  main (Dir [(str_of "docs",
              Dir [(str_of "plans",
                    Dir [(str_of "README.md",
                          File (Some (str_of "- [ ] a")))])])])
  = ([], Ok 0).
Proof. reflexivity. Qed.

(** The run on the small tree. *)
Example main_example :
  main sample_fs
  = ([str_of "docs/plans/a/z.md :: no task checkboxes";
      str_of "docs/plans/b.md :: 1x + 0~ / 1 total = 100% tested"],
     Ok 0).
Proof. reflexivity. Qed.

(** * Further properties of the program *)

(** ** Indentation *)

Lemma after_spaces ws s :
  spaces ws -> after is_space (ws ++ s) = after is_space s.
Proof.
  unfold spaces. induction ws as [|c ws IH]; cbn; auto.
  intros H. apply andb_prop in H. destruct H as [-> H]. now apply IH.
Qed.

(** X1: whitespace put before a line changes neither whether the pattern
    matches it nor the groups, so an indented line is counted like the
    line without the indentation. *)
Theorem indentation_ignored (ws line : str) :
  spaces ws ->
  pat_match (ws ++ line) = pat_match line
  /\ forall r i, scan_line r (i, ws ++ line) = scan_line r (i, line).
Proof.
  intros Hws.
  assert (E : pat_match (ws ++ line) = pat_match line).
  { unfold pat_match. rewrite !re_star_greedy.
    - cbn beta. now rewrite after_spaces.
    - intros w x t Hx H. exfalso. apply H. cbn [re_char].
      now rewrite (space_not_marker x Hx).
    - intros w x t Hx H. exfalso. apply H. cbn [re_char].
      now rewrite (space_not_marker x Hx). }
  split; [exact E|]. intros r i. unfold scan_line. now rewrite E.
Qed.

Lemma indentation_ignored_witness :
  spaces (str_of "    ")
  /\ pat_match (str_of "    - [x] nested") = pat_match (str_of "- [x] nested")
  /\ forall r i,
       scan_line r (i, str_of "    - [x] nested")
       = scan_line r (i, str_of "- [x] nested").
Proof.
  exact (conj eq_refl
           (indentation_ignored (str_of "    ") (str_of "- [x] nested")
              eq_refl)).
Defined.

(** ** The lines of a file *)

Lemma is_task_match line : is_task line = true <-> pat_match line <> None.
Proof.
  unfold is_task, classify.
  destruct (pat_match line) as [[g1 g2]|].
  - destruct (str_eqb (lower g1) (str_of "x"));
      [|destruct (str_eqb (lower g1) (str_of "~"))];
      split; congruence.
  - split; congruence.
Qed.

(** X2: on a line of a file only the start decides: the line is a task
    line exactly when it starts with whitespace, a marker, whitespace and a
    bracketed state character, whatever follows the closing bracket. *)
Theorem file_line_task_iff_start (text line : str) :
  In line (splitlines text) ->
  (is_task line = true <-> exists rest, task_start line rest).
Proof.
  intros Hin. apply splitlines_no_LF in Hin. rewrite is_task_match. split.
  - destruct (pat_match line) as [[g1 g2]|] eqn:E; [intros _|congruence].
    apply pat_match_inv in E.
    destruct E as (ws & m & ws' & c & ws'' & nl & E & H1 & H2 & H3 & H4 & _).
    exists (ws'' ++ g2 ++ nl), ws, m, ws', c.
    rewrite is_state_spec in H4. auto.
  - intros (rest & ws & m & ws' & c & E & H1 & H2 & H3 & H4).
    subst line. rewrite pat_match_line; auto.
    + apply is_state_spec in H4. rewrite H4. discriminate.
    + unfold no_LF in *. rewrite forallb_app in Hin.
      apply andb_prop in Hin. destruct Hin as [_ Hin].
      cbn [forallb] in Hin. apply andb_prop in Hin.
      destruct Hin as [_ Hin]. rewrite forallb_app in Hin.
      apply andb_prop in Hin. destruct Hin as [_ Hin].
      cbn [forallb] in Hin.
      repeat (apply andb_prop in Hin; destruct Hin as [_ Hin]).
      exact Hin.
Qed.

Lemma file_line_task_iff_start_witness :
  In (str_of "*[~]]] [x") (splitlines (str_of "intro
*[~]]] [x
outro"))
  /\ (is_task (str_of "*[~]]] [x") = true
      <-> exists rest, task_start (str_of "*[~]]] [x") rest).
Proof.
  assert (H : In (str_of "*[~]]] [x") (splitlines (str_of "intro
*[~]]] [x
outro"))) by (right; left; reflexivity).
  exact (conj H (file_line_task_iff_start _ _ H)).
Defined.

(** ** Descriptions *)

Lemma lstrip_head s c t : lstrip s = c :: t -> is_space c = false.
Proof.
  induction s as [|x s IH]; cbn; [discriminate|].
  destruct (is_space x) eqn:E; auto. intros H. inversion H; subst. exact E.
Qed.

Lemma lstrip_keeps_tail x d y :
  is_space d = false -> lstrip (x ++ d :: y) = lstrip x ++ d :: y.
Proof.
  intros Hd. induction x as [|c x IH]; cbn.
  - now rewrite Hd.
  - destruct (is_space c); auto.
Qed.

Lemma strip_trimmed s : trimmed (strip s).
Proof.
  unfold trimmed, strip, rstrip. split.
  - intros c t H. destruct (lstrip s) as [|d u] eqn:E; [discriminate|].
    pose proof (lstrip_head _ _ _ E) as Hd.
    cbn [rev] in H. rewrite lstrip_keeps_tail in H by assumption.
    rewrite rev_app_distr in H. cbn in H. inversion H; subst. exact Hd.
  - intros t c H. apply (f_equal (@rev char)) in H.
    rewrite rev_involutive, rev_app_distr in H. cbn in H.
    eapply lstrip_head; eauto.
Qed.

(** X3: no description kept in a report starts or ends with whitespace. *)
Theorem descriptions_trimmed (text : str) (ln : Z) (txt : str) :
  In (ln, txt) (unchecked (scan text)) -> trimmed txt.
Proof.
  rewrite scan_closed. cbn [unchecked]. intros H.
  apply unchecked_entries_in in H.
  destruct H as (_ & line & g1 & g2 & _ & _ & _ & ->).
  apply strip_trimmed.
Qed.

Lemma descriptions_trimmed_witness :
  In (2, str_of "b  c") (unchecked (scan (str_of "- [x] a
- [ ]    b  c   ")))
  /\ trimmed (str_of "b  c").
Proof.
  assert (H : In (2, str_of "b  c") (unchecked (scan (str_of "- [x] a
- [ ]    b  c   ")))) by (left; reflexivity).
  exact (conj H (descriptions_trimmed _ _ _ H)).
Defined.

(** ** The report of a file, as printed *)

Lemma count_zero f lines :
  count f lines = 0 <-> forall line, In line lines -> f line = false.
Proof.
  unfold count. induction lines as [|l ls IH]; cbn [filter].
  - split; [intros _ line []|reflexivity].
  - destruct (f l) eqn:E.
    + split; [cbn [length]; lia|].
      intros H. rewrite (H l (or_introl eq_refl)) in E. discriminate.
    + rewrite IH. split.
      * intros H line [<-|Hin]; auto.
      * intros H line Hin. apply H. now right.
Qed.

(** X4: a file gets the line about no task checkboxes, and nothing else,
    exactly when none of its lines is a task line; any other file gets a
    summary line first. *)
Theorem no_tasks_iff_no_task_line (path text : str) :
  ((forall line, In line (splitlines text) -> is_task line = false)
   <-> total (scan text) = 0)
  /\ (total (scan text) = 0 ->
      report_lines path (scan text) = Ok [no_tasks_line path])
  /\ (total (scan text) <> 0 ->
      exists pct more,
        report_lines path (scan text)
        = Ok (summary_line path (scan text) pct :: more)).
Proof.
  split; [|split].
  - rewrite scan_closed. cbn [total]. now rewrite count_zero.
  - apply report_lines_empty.
  - intros Ht. destruct (scan_well_formed text) as (Hd & Hi & Hc).
    unfold counts_agree in Hc.
    destruct (report_lines_tasks path (scan text) ltac:(lia) Ht)
      as (q & _ & Hr).
    eexists _, _. exact Hr.
Qed.

(** X5: what is printed for a file is one line at least and seven lines at
    most. *)
Theorem report_between_one_and_seven_lines (path text : str) :
  exists ls,
    report_lines path (scan text) = Ok ls
    /\ (1 <= length ls <= 7)%nat.
Proof.
  destruct (scan_well_formed text) as (Hd & Hi & Hc).
  unfold counts_agree in Hc.
  destruct (Z.eq_dec (total (scan text)) 0) as [Ht|Ht].
  - eexists. split; [now apply report_lines_empty|]. cbn. lia.
  - destruct (report_lines_tasks path (scan text) ltac:(lia) Ht)
      as (q & _ & Hr).
    eexists. split; [exact Hr|].
    cbn [length]. rewrite length_app, length_map.
    pose proof (firstn_le_length 5 (unchecked (scan text))).
    destruct (Z.of_nat (length (unchecked (scan text))) >? 5);
      cbn [length]; lia.
Qed.

(** ** The percentage at both ends *)

Lemma div_eucl_multiple p k :
  0 <= k -> Z.div_eucl (Zpos p * k) (Zpos p) = (k, 0).
Proof.
  intros Hk. pose proof (Z_div_mod (Zpos p * k) (Zpos p) eq_refl) as H.
  destruct (Z.div_eucl (Zpos p * k) (Zpos p)) as [q r].
  destruct H as [H1 H2].
  assert (q = k) by nia. subst q. f_equal. lia.
Qed.

Lemma int_truediv_same p :
  int_truediv (Zpos p) (Zpos p)
  = Ok (S754_finite false 4503599627370496 (-52)).
Proof.
  unfold int_truediv. cbn [Z.eqb int_operand SFdiv].
  unfold SFdiv_core_binary.
  replace (Zdigits2 (Zpos p) + 0 - (Zdigits2 (Zpos p) + 0)) with 0 by lia.
  change (Z.min (fexp prec emax 0) (0 - 0)) with (-53).
  change (0 - 0 - -53) with 53.
  rewrite Z.shiftl_mul_pow2 by lia.
  rewrite div_eucl_multiple by lia.
  assert (L : new_location (Zpos p) 0 = loc_Exact)
    by (unfold new_location; destruct (Z.even (Zpos p)); reflexivity).
  rewrite L. reflexivity.
Qed.

(** X6: the summary line of a file with every task done ends with 100%
    tested, and that of a file with tasks of which none is done with 0%
    tested. *)
Theorem percentage_all_or_none_done (path : str) (r : report) :
  0 < total r ->
  (done r = total r ->
   exists more,
     report_lines path r
     = Ok ((path ++ str_of " :: " ++ str_of_int (done r) ++ str_of "x + "
                 ++ str_of_int (impl r) ++ str_of "~ / "
                 ++ str_of_int (total r) ++ str_of " total = 100% tested")
             :: more))
  /\ (done r = 0 ->
      exists more,
        report_lines path r
        = Ok ((path ++ str_of " :: " ++ str_of_int (done r) ++ str_of "x + "
                    ++ str_of_int (impl r) ++ str_of "~ / "
                    ++ str_of_int (total r) ++ str_of " total = 0% tested")
                :: more)).
Proof.
  intros Ht. unfold report_lines, percent, summary_line.
  destruct (Z.eqb_spec (total r) 0) as [E|_]; [lia|].
  split; intros Hd; eexists; rewrite Hd.
  - destruct (total r) as [|p|p] eqn:E; try lia.
    rewrite int_truediv_same. reflexivity.
  - destruct (total r) as [|p|p] eqn:E; try lia.
    reflexivity.
Qed.

Lemma percentage_all_or_none_done_witness :
  let path := str_of "docs/plans/a.md" in
  let r := mkReport 7 7 0 [] in
  0 < total r
  /\ (done r = total r ->
      exists more,
        report_lines path r
        = Ok ((path ++ str_of " :: " ++ str_of_int (done r) ++ str_of "x + "
                    ++ str_of_int (impl r) ++ str_of "~ / "
                    ++ str_of_int (total r) ++ str_of " total = 100% tested")
                :: more))
  /\ (done r = 0 ->
      exists more,
        report_lines path r
        = Ok ((path ++ str_of " :: " ++ str_of_int (done r) ++ str_of "x + "
                    ++ str_of_int (impl r) ++ str_of "~ / "
                    ++ str_of_int (total r) ++ str_of " total = 0% tested")
                :: more)).
Proof.
  intros path r.
  exact (conj eq_refl (percentage_all_or_none_done path r eq_refl)).
Defined.

(** ** The order of the files *)

Section SortedUnique.
Context {A : Type} (key : A -> str).

Let key_lt (x y : A) : Prop := str_ltb (key x) (key y) = true.

Lemma strictly_sorted_unique l1 : forall l2,
  StronglySorted key_lt l1 -> StronglySorted key_lt l2 ->
  Permutation l1 l2 -> l1 = l2.
Proof.
  induction l1 as [|x l1 IH]; intros l2 S1 S2 P.
  - apply Permutation_nil in P. now subst.
  - destruct l2 as [|y l2];
      [apply Permutation_sym, Permutation_nil in P; discriminate|].
    inversion S1 as [|? ? S1' F1]; subst.
    inversion S2 as [|? ? S2' F2]; subst.
    rewrite Forall_forall in F1, F2.
    assert (E : x = y).
    { assert (Hy : In y (x :: l1))
        by (eapply Permutation_in; [symmetry; exact P|now left]).
      assert (Hx : In x (y :: l2))
        by (eapply Permutation_in; [exact P|now left]).
      destruct Hy as [Hy|Hy]; [exact Hy|].
      destruct Hx as [Hx|Hx]; [now symmetry|].
      apply F1 in Hy. apply F2 in Hx. unfold key_lt in *.
      pose proof (str_ltb_trans _ _ _ Hy Hx) as T.
      rewrite str_ltb_irrefl in T. discriminate. }
    subst y. f_equal. apply IH; auto.
    eapply Permutation_cons_inv; eauto.
Qed.

(** X7: the sorted list does not depend on the order in which the files
    were listed, provided no two of them share a key. *)
Theorem sorted_ignores_listing_order (l l' : list A) :
  Permutation l l' -> NoDup (map key l) ->
  sorted key l = sorted key l'.
Proof.
  intros P ND.
  assert (ND' : NoDup (map key l'))
    by (eapply Permutation_NoDup; [apply Permutation_map; exact P|exact ND]).
  apply strictly_sorted_unique.
  - now apply sorted_strict.
  - now apply sorted_strict.
  - rewrite <- (sorted_perm key l), <- (sorted_perm key l'). exact P.
Qed.

End SortedUnique.

Lemma sorted_ignores_listing_order_witness :
  let a := [str_of "docs"; str_of "plans"; str_of "a.md"] in
  let b := [str_of "docs"; str_of "plans"; str_of "b.md"] in
  let c := [str_of "docs"; str_of "plans"; str_of "a"; str_of "c.md"] in
  Permutation [b; c; a] [c; a; b]
  /\ NoDup (map as_posix [b; c; a])
  /\ sorted as_posix [b; c; a] = sorted as_posix [c; a; b].
Proof.
  intros a b c.
  assert (P : Permutation [b; c; a] [c; a; b]).
  { apply Permutation_sym. apply (Permutation_cons_app [b] [a] c).
    apply (Permutation_cons_app [b] [] a). apply Permutation_refl. }
  assert (ND : NoDup (map as_posix [b; c; a])).
  { repeat constructor; cbn; intros H;
      repeat (destruct H as [H|H]; [discriminate|]); exact H. }
  exact (conj P (conj ND (sorted_ignores_listing_order as_posix _ _ P ND))).
Defined.

(** ** The output of a run *)

Lemma block_readable fs p text :
  read_text fs p = Ok text ->
  report_lines (as_posix p) (scan text) = Ok (block fs p).
Proof.
  intros H. unfold block. rewrite H.
  destruct (report_lines_scan (as_posix p) text) as [ls ->]. reflexivity.
Qed.

Lemma audit_app fs ps1 : forall ps2,
  (forall p, In p ps1 -> exists text, read_text fs p = Ok text) ->
  audit fs (ps1 ++ ps2)
  = (flat_map (block fs) ps1 ++ fst (audit fs ps2), snd (audit fs ps2)).
Proof.
  induction ps1 as [|p ps1 IH]; intros ps2 H.
  - cbn. now destruct (audit fs ps2).
  - cbn [app audit flat_map].
    destruct (H p (or_introl eq_refl)) as [text Ht].
    rewrite Ht, (block_readable fs p text Ht).
    rewrite (IH ps2 (fun q Hq => H q (or_intror Hq))).
    now rewrite app_assoc.
Qed.

(** X8: when every file found can be read, the run prints the reports of
    the files one after the other, in the order of the sorted paths, and
    returns 0. *)
Theorem readable_run_prints_all_reports (fs : node) :
  (forall p, In p (files fs) -> exists text, read_text fs p = Ok text) ->
  main fs = (flat_map (block fs) (sorted as_posix (files fs)), Ok 0)
  /\ forall p, In p (files fs) ->
       exists text,
         read_text fs p = Ok text
         /\ report_lines (as_posix p) (scan text) = Ok (block fs p).
Proof.
  intros H. split.
  - unfold main.
    rewrite <- (app_nil_r (sorted as_posix (files fs))) at 1.
    rewrite audit_app; [cbn; now rewrite app_nil_r|].
    intros p Hp. apply H.
    eapply Permutation_in; [symmetry; apply sorted_perm|exact Hp].
  - intros p Hp. destruct (H p Hp) as [text Ht].
    exists text. split; [exact Ht|now apply block_readable].
Qed.

Lemma readable_run_prints_all_reports_witness :
  (forall p, In p (files sample_fs) ->
     exists text, read_text sample_fs p = Ok text)
  /\ main sample_fs
     = (flat_map (block sample_fs) (sorted as_posix (files sample_fs)), Ok 0)
  /\ forall p, In p (files sample_fs) ->
       exists text,
         read_text sample_fs p = Ok text
         /\ report_lines (as_posix p) (scan text) = Ok (block sample_fs p).
Proof.
  assert (H : forall p, In p (files sample_fs) ->
                exists text, read_text sample_fs p = Ok text).
  { intros p Hp.
    assert (F : files sample_fs
                = [[str_of "docs"; str_of "plans"; str_of "b.md"];
                   [str_of "docs"; str_of "plans"; str_of "a"; str_of "z.md"]])
      by reflexivity.
    rewrite F in Hp.
    destruct Hp as [<-|[<-|[]]]; eexists; reflexivity. }
  exact (conj H (readable_run_prints_all_reports sample_fs H)).
Defined.

(** X9: a file that cannot be read stops the run: the reports of the files
    sorted before it are printed, nothing of it or of the files after it,
    and the exit status is 1. *)
Theorem unreadable_file_aborts (fs : node) (ps1 : list path) (p : path)
  (ps2 : list path) :
  sorted as_posix (files fs) = ps1 ++ p :: ps2 ->
  (forall q, In q ps1 -> exists text, read_text fs q = Ok text) ->
  read_text fs p = Raise ReadError ->
  main fs = (flat_map (block fs) ps1, Raise ReadError)
  /\ exit_status (snd (main fs)) = 1.
Proof.
  intros E H1 Hp.
  assert (M : main fs = (flat_map (block fs) ps1, Raise ReadError)).
  { unfold main. rewrite E, audit_app by assumption.
    cbn [audit]. rewrite Hp. cbn. now rewrite app_nil_r. }
  split; [exact M|]. now rewrite M.
Qed.

Lemma unreadable_file_aborts_witness :
  let a := [str_of "docs"; str_of "plans"; str_of "a.md"] in
  let b := [str_of "docs"; str_of "plans"; str_of "b.md"] in
  let c := [str_of "docs"; str_of "plans"; str_of "c.md"] in
  sorted as_posix (files sample_fs_unreadable) = [a] ++ b :: [c]
  /\ (forall q, In q [a] ->
        exists text, read_text sample_fs_unreadable q = Ok text)
  /\ read_text sample_fs_unreadable b = Raise ReadError
  /\ main sample_fs_unreadable
     = (flat_map (block sample_fs_unreadable) [a], Raise ReadError)
  /\ exit_status (snd (main sample_fs_unreadable)) = 1.
Proof.
  intros a b c.
  assert (H : forall q, In q [a] ->
                exists text, read_text sample_fs_unreadable q = Ok text)
    by (intros q [<-|[]]; eexists; reflexivity).
  exact (conj eq_refl
           (conj H
              (conj eq_refl
                 (unreadable_file_aborts sample_fs_unreadable [a] b [c]
                    eq_refl H eq_refl)))).
Defined.

(** The run on the tree with the unreadable plan. *)
Example unreadable_run_example :
  main sample_fs_unreadable
  = ([str_of "docs/plans/a.md :: 1x + 0~ / 1 total = 100% tested"],
     Raise ReadError).
Proof. reflexivity. Qed.
